(** * match_variants: verification of the variant matcher

    A shallow embedding of [bin/match_variants.py].  Data frames are lists
    of records whose fields are the columns the script names; column
    expressions become functions on rows or on columns; the files written
    by [write_csv] are a finite map from path to table.

    Conventions of the embedding:
    - string columns hold Rocq strings, [chr_position]/[POS] hold integers,
      [effect_weight] holds a binary64 float, as [read_csv] infers them;
      null cells are outside the model;
    - categorical casts and the global string cache only change the
      representation of a column, so they do not appear;
    - a join lists its result in the order of the left frame, then of the
      right frame; [unique()] keeps first occurrences in order; [pivot]
      lists index values and accessions by first occurrence and keeps the
      first weight of a repeated cell. *)

From Stdlib Require Import String Ascii List ZArith Bool Lia Permutation Floats.
From stdpp Require Import gmap strings.
Import ListNotations.
Open Scope string_scope.
Open Scope list_scope.

(** ** Data model *)

(** A row of the target table as [read_csv] returns it, restricted to the
    columns both formats ([bim], [pvar]) share and the script uses. *)
Module Variant.
Record row := mk
    { CHROM : string; ID : string; POS : Z; REF : string; ALT : string }.
End Variant.

(** A row of the frame [read_target] returns. *)
Module Target.
Record row := mk
    { CHROM : string; ID : string; POS : Z;
      REF : string; ALT : string; REF_FLIP : string; ALT_FLIP : string }.
End Target.

(** A row of the combined scorefile. *)
Module Score.
Record row := mk
    { chr_name : string; chr_position : Z;
      effect_allele : string; other_allele : string;
      effect_weight : float; effect_type : string; accession : string }.
End Score.

(** A row of the frame [match_variants] returns: the columns of [colnames]. *)
Module Match.
Record row := mk
    { chr_name : string; chr_position : Z;
      effect_allele : string; other_allele : string;
      effect_weight : float; effect_type : string; accession : string;
      ID : string; REF : string; ALT : string;
      REF_FLIP : string; ALT_FLIP : string; match_type : string }.
End Match.

(** A row of the frame [label_biallelic_ambiguous] works on: a match row
    with the added column [ambiguous]. *)
Module Labelled.
Record row := mk { base : Match.row; ambiguous : bool }.
End Labelled.

(** ** read_target: complementing alleles *)

(** [str.replace_all(pat, rep)] for a one-character literal pattern. *)
Fixpoint replace_all (pat rep : ascii) (s : string) : string :=
  match s with
  | EmptyString => EmptyString
  | String c s' =>
      String (if Ascii.eqb c pat then rep else c) (replace_all pat rep s')
  end.

(** The chain of eight replacements applied to [REF] and to [ALT]. *)
Definition complement (s : string) : string :=
  replace_all "Z" "C"
    (replace_all "Y" "G"
      (replace_all "X" "A"
        (replace_all "V" "T"
          (replace_all "G" "Z"
            (replace_all "C" "Y"
              (replace_all "T" "X"
                (replace_all "A" "V" s))))))).

Definition read_target (x : list Variant.row) : list Target.row :=
  map (fun v =>
         {| Target.CHROM := Variant.CHROM v;
            Target.ID := Variant.ID v;
            Target.POS := Variant.POS v;
            Target.REF := Variant.REF v;
            Target.ALT := Variant.ALT v;
            Target.REF_FLIP := complement (Variant.REF v);
            Target.ALT_FLIP := complement (Variant.ALT v) |}) x.

(** What the chain does to one character. *)
Definition complement_char (c : ascii) : ascii :=
  if Ascii.eqb c "A" then "T"
  else if Ascii.eqb c "T" then "A"
  else if Ascii.eqb c "C" then "G"
  else if Ascii.eqb c "G" then "C"
  else if Ascii.eqb c "V" then "T"
  else if Ascii.eqb c "X" then "A"
  else if Ascii.eqb c "Y" then "G"
  else if Ascii.eqb c "Z" then "C"
  else c.

Definition nucleotide (c : ascii) : bool :=
  Ascii.eqb c "A" || Ascii.eqb c "T" || Ascii.eqb c "C" || Ascii.eqb c "G".

(** Allele strings over the alphabet A, T, C, G. *)
Fixpoint valid_allele (s : string) : bool :=
  match s with
  | EmptyString => true
  | String c s' => nucleotide c && valid_allele s'
  end.

Fixpoint string_map (f : ascii -> ascii) (s : string) : string :=
  match s with
  | EmptyString => EmptyString
  | String c s' => String (f c) (string_map f s')
  end.

(** ** match_variants *)

(** The target columns that serve as allele join keys ([EA], [OA]). *)
Inductive allele_col := col_REF | col_ALT | col_REF_FLIP | col_ALT_FLIP.

Definition allele_col_eqb (a b : allele_col) : bool :=
  match a, b with
  | col_REF, col_REF | col_ALT, col_ALT
  | col_REF_FLIP, col_REF_FLIP | col_ALT_FLIP, col_ALT_FLIP => true
  | _, _ => false
  end.

Definition target_col (c : allele_col) (t : Target.row) : string :=
  match c with
  | col_REF => Target.REF t
  | col_ALT => Target.ALT t
  | col_REF_FLIP => Target.REF_FLIP t
  | col_ALT_FLIP => Target.ALT_FLIP t
  end.

(** Equality of the four join keys: [left_on] against [right_on]. *)
Definition join_keys (EA OA : allele_col) (s : Score.row) (t : Target.row) : bool :=
  String.eqb (Score.chr_name s) (Target.CHROM t)
  && Z.eqb (Score.chr_position s) (Target.POS t)
  && String.eqb (Score.effect_allele s) (target_col EA t)
  && String.eqb (Score.other_allele s) (target_col OA t).

(** Column [c] of a joined row.  The join drops the right key columns
    [EA] and [OA]; [with_columns] restores them as copies of
    [effect_allele] and [other_allele]; the other two allele columns come
    from the target row. *)
Definition joined_col (EA OA c : allele_col) (s : Score.row) (t : Target.row) : string :=
  if allele_col_eqb c EA then Score.effect_allele s
  else if allele_col_eqb c OA then Score.other_allele s
  else target_col c t.

Definition joined_row (EA OA : allele_col) (match_type : string)
    (s : Score.row) (t : Target.row) : Match.row :=
  {| Match.chr_name := Score.chr_name s;
     Match.chr_position := Score.chr_position s;
     Match.effect_allele := Score.effect_allele s;
     Match.other_allele := Score.other_allele s;
     Match.effect_weight := Score.effect_weight s;
     Match.effect_type := Score.effect_type s;
     Match.accession := Score.accession s;
     Match.ID := Target.ID t;
     Match.REF := joined_col EA OA col_REF s t;
     Match.ALT := joined_col EA OA col_ALT s t;
     Match.REF_FLIP := joined_col EA OA col_REF_FLIP s t;
     Match.ALT_FLIP := joined_col EA OA col_ALT_FLIP s t;
     Match.match_type := match_type |}.

Definition match_variants (scorefile : list Score.row) (target : list Target.row)
    (EA OA : allele_col) (match_type : string) : list Match.row :=
  flat_map
    (fun s => map (joined_row EA OA match_type s)
                  (List.filter (join_keys EA OA s) target))
    scorefile.

(** ** label_biallelic_ambiguous *)

(** [pl.lit(True).alias("ambiguous")] *)
Definition lit_ambiguous (m : Match.row) : Labelled.row :=
  {| Labelled.base := m; Labelled.ambiguous := true |}.

(** The predicate of [pl.when]. *)
Definition when_flip (r : Labelled.row) : bool :=
  String.eqb (Match.effect_allele (Labelled.base r)) (Match.ALT_FLIP (Labelled.base r))
  || String.eqb (Match.effect_allele (Labelled.base r)) (Match.REF_FLIP (Labelled.base r)).

(** [when(..).then(pl.col("ambiguous")).otherwise(False)], which replaces
    the column [ambiguous]. *)
Definition then_otherwise (r : Labelled.row) : Labelled.row :=
  {| Labelled.base := Labelled.base r;
     Labelled.ambiguous := if when_flip r then Labelled.ambiguous r else false |}.

Definition label_biallelic_ambiguous (matches : list Match.row) (remove : bool)
    : list Labelled.row :=
  let matches := map lit_ambiguous matches in
  let ambiguous := map then_otherwise matches in
  if remove
  then List.filter (fun r => Bool.eqb (Labelled.ambiguous r) false) ambiguous
  else ambiguous.

(** ** get_all_matches *)

Definition get_all_matches (target : list Target.row) (scorefile : list Score.row)
    (remove : bool) : list Labelled.row :=
  let refalt := match_variants scorefile target col_REF col_ALT "refalt" in
  let altref := match_variants scorefile target col_ALT col_REF "altref" in
  let refalt_flip :=
    match_variants scorefile target col_REF_FLIP col_ALT_FLIP "refalt_flip" in
  let altref_flip :=
    match_variants scorefile target col_ALT_FLIP col_REF_FLIP "altref_flip" in
  label_biallelic_ambiguous (refalt ++ altref ++ refalt_flip ++ altref_flip) remove.

(** ** unduplicate_variants *)

(** [Series.is_duplicated()]: the mask of every value that occurs more
    than once in the column. *)
Definition is_duplicated (col : list string) : list bool :=
  map (fun x => Nat.ltb 1 (count_occ string_dec col x)) col.

(** [df[mask]]: the rows whose mask entry is true. *)
Definition select_mask {A : Type} (df : list A) (mask : list bool) : list A :=
  map fst (List.filter snd (combine df mask)).

(** The dictionary with the two keys ['first'] and ['dup']. *)
Record Unduplicated := mkUnduplicated
  { first : list Labelled.row; dup : list Labelled.row }.

Definition col_ID (df : list Labelled.row) : list string :=
  map (fun r => Match.ID (Labelled.base r)) df.

Definition unduplicate_variants (df : list Labelled.row) : Unduplicated :=
  {| first := select_mask df (map negb (is_duplicated (col_ID df)));
     dup := select_mask df (is_duplicated (col_ID df)) |}.

(** ** split_effect_type *)

(** [Series.unique().to_list()] *)
Fixpoint unique_by {A : Type} (eqb : A -> A -> bool) (l : list A) : list A :=
  match l with
  | [] => []
  | x :: l' => x :: List.filter (fun y => negb (eqb y x)) (unique_by eqb l')
  end.

Definition unique (l : list string) : list string := unique_by String.eqb l.

Definition col_effect_type (df : list Labelled.row) : list string :=
  map (fun r => Match.effect_type (Labelled.base r)) df.

(** The dictionary comprehension, as the list of its items in order. *)
Definition split_effect_type (df : list Labelled.row)
    : list (string * list Labelled.row) :=
  let effect_types := unique (col_effect_type df) in
  map (fun x =>
         (x, List.filter
               (fun r => String.eqb (Match.effect_type (Labelled.base r)) x) df))
      effect_types.

(** ** format_scorefile *)

(** A wide table: the column names, and per row the two index cells
    followed by one cell per accession. *)
Record Table (C : Type) := mkTable
  { header : list string; body : list (string * string * list C) }.
Arguments mkTable {C} _ _.
Arguments header {C} _.
Arguments body {C} _.

Definition index_eqb (a b : string * string) : bool :=
  String.eqb (fst a) (fst b) && String.eqb (snd a) (snd b).

(** One cell of the pivot: the weight of the first row with this index
    and accession, null when there is none. *)
Definition pivot_cell (df : list Labelled.row) (ix : string * string)
    (acc : string) : option float :=
  option_map (fun r => Match.effect_weight (Labelled.base r))
    (find (fun r =>
             index_eqb (Match.ID (Labelled.base r),
                        Match.effect_allele (Labelled.base r)) ix
             && String.eqb (Match.accession (Labelled.base r)) acc) df).

(** [df.pivot(index = ["ID", "effect_allele"], values = "effect_weight",
    columns = "accession")] *)
Definition pivot (df : list Labelled.row) : Table (option float) :=
  let index :=
    unique_by index_eqb
      (map (fun r => (Match.ID (Labelled.base r),
                      Match.effect_allele (Labelled.base r))) df) in
  let columns := unique (map (fun r => Match.accession (Labelled.base r)) df) in
  {| header := "ID" :: "effect_allele" :: columns;
     body := map (fun ix => (fst ix, snd ix, map (pivot_cell df ix) columns)) index |}.

Definition fill_null {C : Type} (lit : C) (t : Table (option C)) : Table C :=
  {| header := header t;
     body := map (fun r => (fst r, map (fun c => match c with Some w => w | None => lit end)
                                       (snd r))) (body t) |}.

Definition col_chr_name (df : list Labelled.row) : list string :=
  map (fun r => Match.chr_name (Labelled.base r)) df.

(** The dictionary [format_scorefile] returns, as its items in order. *)
Definition format_scorefile (df : list Labelled.row) (split : bool)
    : list (string * Table float) :=
  if split then
    let chroms := unique (col_chr_name df) in
    map (fun x =>
           (x, fill_null 0%float
                 (pivot (List.filter
                           (fun r => String.eqb (Match.chr_name (Labelled.base r)) x)
                           df))))
        chroms
  else [("false", fill_null 0%float (pivot df))].

(** ** write_scorefile *)

(** How [str.format] prints an effect type that may be [None]. *)
Definition format_et (et : option string) : string :=
  match et with Some s => s | None => "None" end.

(** ['{chr}_{et}_{dup}.scorefile'.format(chr = .., et = .., dup = ..)] *)
Definition fout (chr : string) (et : option string) (dup : string) : string :=
  String.append chr
    (String.append "_"
      (String.append (format_et et)
        (String.append "_" (String.append dup ".scorefile")))).

(** One call of [write_csv]: the path and the table written there. *)
Definition write : Type := string * Table float.

(** The loop [for k, v in df_dict.items()]: one [write_csv] per item, at
    the path formatted with the literal passed as [dup]. *)
Definition write_items (effect_type : option string) (dup : string)
    (df_dict : list (string * Table float)) : list write :=
  map (fun kv => (fout (fst kv) effect_type dup, snd kv)) df_dict.

(** The calls of [write_csv] that [write_scorefile] makes, in order. *)
Definition write_scorefile (effect_type : option string) (scorefile : Unduplicated)
    (split : bool) : list write :=
  (if Nat.ltb 0 (length (first scorefile)) then
     let df_dict := format_scorefile (first scorefile) split in
     write_items effect_type "first" df_dict
   else [])
  ++
  (if Nat.ltb 0 (length (dup scorefile)) then
     let df_dict := format_scorefile (dup scorefile) split in
     write_items effect_type "first" df_dict
   else []).

(** The files on disk; [write_csv] creates or replaces the file at its path. *)
Definition write_csv (fs : gmap string (Table float)) (w : write)
    : gmap string (Table float) :=
  <[fst w := snd w]> fs.

Definition run_writes (fs : gmap string (Table float)) (ws : list write)
    : gmap string (Table float) :=
  fold_left write_csv ws fs.

(** ** main *)

Module Args.
Record t := mk
  { dataset : string; scorefile : string; target : string;
    split : bool; plink_format : option string; min_overlap : float }.
End Args.

Inductive exn := AssertionError (msg : string).

(** How a run of [main] ends: it returns [None] or an exception escapes. *)
Inductive outcome := Returned | Raised (e : exn).

Definition empty_err : string :=
  " ERROR: No target variants match any variants in all scoring files
    This is quite odd!
    Try checking the genome build (see --liftover and --target_build parameters)
    Try imputing your microarray data if it doesn't cover the scoring variants well
    ".

(** [ea_dict.get(k)] *)
Definition ea_dict_get (k : string) : option string :=
  if String.eqb k "is_dominant" then Some "dominant"
  else if String.eqb k "is_recessive" then Some "recessive"
  else if String.eqb k "additive" then Some "additive"
  else None.

(** [main], given the rows [read_csv] finds in the target table and in the
    scorefile: the calls of [write_csv] it makes and how it ends. *)
Definition main (args : Args.t) (target_rows : list Variant.row)
    (scorefile_rows : list Score.row) : list write * outcome :=
  let target := read_target target_rows in
  let scorefile := scorefile_rows in
  let matches := get_all_matches target scorefile true in
  if Nat.ltb 0 (length matches) then
    let ets := split_effect_type matches in
    let unduplicated := map (fun kv => (fst kv, unduplicate_variants (snd kv))) ets in
    (flat_map (fun kv => write_scorefile (ea_dict_get (fst kv)) (snd kv) (Args.split args))
              unduplicated,
     Returned)
  else ([], Raised (AssertionError empty_err)).

(** The exit status of the script: [sys.exit(None)] is 0, an uncaught
    exception is 1. *)
Definition exit_status (o : outcome) : Z :=
  match o with Returned => 0%Z | Raised _ => 1%Z end.

(** ** Auxiliary definitions for the statements *)

(** The letters the replacement chain uses as intermediate marks. *)
Definition placeholder (c : ascii) : bool :=
  Ascii.eqb c "V" || Ascii.eqb c "X" || Ascii.eqb c "Y" || Ascii.eqb c "Z".

(** Strings in which none of the marks occurs. *)
Fixpoint free_of_marks (s : string) : bool :=
  match s with
  | EmptyString => true
  | String c s' => negb (placeholder c) && free_of_marks s'
  end.

(** The four calls of [match_variants] in [get_all_matches]:
    [EA], [OA] and [match_type] of each. *)
Definition hypotheses : list (allele_col * allele_col * string) :=
  [ (col_REF, col_ALT, "refalt"); (col_ALT, col_REF, "altref");
    (col_REF_FLIP, col_ALT_FLIP, "refalt_flip");
    (col_ALT_FLIP, col_REF_FLIP, "altref_flip") ].

(** Whether the identifier of [r] occurs more than once in [df]. *)
Definition duplicated_in (df : list Labelled.row) (r : Labelled.row) : bool :=
  Nat.ltb 1 (count_occ string_dec (col_ID df) (Match.ID (Labelled.base r))).

(** *** Sample tables *)

(** One target variant A/G and a scorefile row with the same orientation. *)
Definition target_AG (id : string) : list Variant.row :=
  [Variant.mk "1" id 100 "A" "G"].

Definition score_AG : list Score.row :=
  [Score.mk "1" 100 "A" "G" 0.5%float "additive" "X"].

(** A strand-ambiguous site A/T. *)
Definition target_AT : list Variant.row :=
  [Variant.mk "1" "rs2" 200 "A" "T"].

Definition score_AT : list Score.row :=
  [Score.mk "1" 200 "A" "T" 0.5%float "additive" "X"].

Definition match_AT : Labelled.row :=
  {| Labelled.base :=
       {| Match.chr_name := "1"; Match.chr_position := 200;
          Match.effect_allele := "A"; Match.other_allele := "T";
          Match.effect_weight := 0.5%float;
          Match.effect_type := "additive"; Match.accession := "X";
          Match.ID := "rs2"; Match.REF := "A"; Match.ALT := "T";
          Match.REF_FLIP := "T"; Match.ALT_FLIP := "A";
          Match.match_type := "refalt" |};
     Labelled.ambiguous := true |}.

(** Two scores that name different effect alleles of [rs1], and one
    variant [rs3] that only the second score has. *)
Definition target_two : list Variant.row :=
  [Variant.mk "1" "rs1" 100 "A" "G"; Variant.mk "1" "rs3" 300 "A" "G"].

Definition score_two : list Score.row :=
  [Score.mk "1" 100 "A" "G" 0.5%float "additive" "X";
   Score.mk "1" 100 "G" "A" 0.25%float "additive" "Y";
   Score.mk "1" 300 "G" "A" 0.25%float "additive" "Y"].

Definition matches_two : list Labelled.row :=
  get_all_matches (read_target target_two) score_two true.

(** A scorefile of two variants of which the target has only the first. *)
Definition score_half : list Score.row :=
  [Score.mk "1" 100 "A" "G" 0.5%float "additive" "X";
   Score.mk "1" 200 "C" "T" 0.25%float "additive" "X"].

Definition args_strict : Args.t :=
  Args.mk "cohort" "scorefiles.txt" "cohort.bim" false (Some "bim") 1%float.

(** ** Auxiliary definitions for the further properties *)

(** The rows of a frame whose key column holds [k]. *)
Definition group {A : Type} (key : A -> string) (df : list A) (k : string)
    : list A :=
  List.filter (fun r => String.eqb (key r) k) df.

Definition row_effect_type (r : Labelled.row) : string :=
  Match.effect_type (Labelled.base r).

Definition row_chr_name (r : Labelled.row) : string :=
  Match.chr_name (Labelled.base r).

(** The index cells of a row: identifier and effect allele. *)
Definition row_index (r : Labelled.row) : string * string :=
  (Match.ID (Labelled.base r), Match.effect_allele (Labelled.base r)).

Definition row_accession (r : Labelled.row) : string :=
  Match.accession (Labelled.base r).

(** The index cells of the rows of a table, and its identifier column. *)
Definition table_index {C : Type} (t : Table C) : list (string * string) :=
  map fst (body t).

Definition table_IDs {C : Type} (t : Table C) : list string :=
  map fst (table_index t).

(** The accession columns of a table: its header without the two index
    columns. *)
Definition table_accessions {C : Type} (t : Table C) : list string :=
  skipn 2 (header t).

(** A match row that carries the columns of the scorefile row [s] and of
    the target row [t]. *)
Definition from_rows (m : Match.row) (s : Score.row) (t : Target.row) : Prop :=
  Match.chr_name m = Score.chr_name s
  /\ Match.chr_position m = Score.chr_position s
  /\ Match.effect_allele m = Score.effect_allele s
  /\ Match.other_allele m = Score.other_allele s
  /\ Match.effect_weight m = Score.effect_weight s
  /\ Match.effect_type m = Score.effect_type s
  /\ Match.accession m = Score.accession s
  /\ Match.ID m = Target.ID t
  /\ Match.REF m = Target.REF t /\ Match.ALT m = Target.ALT t
  /\ Match.REF_FLIP m = Target.REF_FLIP t
  /\ Match.ALT_FLIP m = Target.ALT_FLIP t.

(** What a match type says about the alleles of the two rows. *)
Definition orientation (match_type : string) (s : Score.row) (t : Target.row)
    : Prop :=
  (match_type = "refalt"
   /\ Score.effect_allele s = Target.REF t /\ Score.other_allele s = Target.ALT t)
  \/ (match_type = "altref"
      /\ Score.effect_allele s = Target.ALT t /\ Score.other_allele s = Target.REF t)
  \/ (match_type = "refalt_flip"
      /\ Score.effect_allele s = Target.REF_FLIP t
      /\ Score.other_allele s = Target.ALT_FLIP t)
  \/ (match_type = "altref_flip"
      /\ Score.effect_allele s = Target.ALT_FLIP t
      /\ Score.other_allele s = Target.REF_FLIP t).

(** The test of [pl.when] on a match row. *)
Definition flip_test (m : Match.row) : bool :=
  String.eqb (Match.effect_allele m) (Match.ALT_FLIP m)
  || String.eqb (Match.effect_allele m) (Match.REF_FLIP m).

(** * Properties *)

(** ** The complementer, character by character *)

Ltac by_ascii_cases c :=
  destruct c as [[] [] [] [] [] [] [] []]; try discriminate; reflexivity.

Lemma replace_chain_char (c : ascii) :
  complement (String c EmptyString) = String (complement_char c) EmptyString.
Proof. by_ascii_cases c. Qed.

Lemma replace_all_app (p r : ascii) (s1 s2 : string) :
  replace_all p r (String.append s1 s2)
  = String.append (replace_all p r s1) (replace_all p r s2).
Proof. induction s1 as [|c s1 IH]; simpl; [reflexivity|]. now rewrite IH. Qed.

Lemma complement_String (c : ascii) (s : string) :
  complement (String c s) = String (complement_char c) (complement s).
Proof.
  change (String c s) with (String.append (String c EmptyString) s).
  unfold complement. rewrite !replace_all_app.
  fold (complement (String c EmptyString)). fold (complement s).
  now rewrite replace_chain_char.
Qed.

Lemma complement_string_map (s : string) :
  complement s = string_map complement_char s.
Proof.
  induction s as [|c s IH]; [reflexivity|].
  rewrite complement_String, IH. reflexivity.
Qed.

Lemma complement_length (s : string) :
  String.length (complement s) = String.length s.
Proof.
  induction s as [|c s IH]; [reflexivity|].
  rewrite complement_String. simpl. now rewrite IH.
Qed.

Lemma complement_get (s : string) (n : nat) :
  String.get n (complement s) = option_map complement_char (String.get n s).
Proof.
  revert n. induction s as [|c s IH]; intros n; [reflexivity|].
  rewrite complement_String. destruct n; simpl; [reflexivity|apply IH].
Qed.

Lemma nucleotide_complement_char (c : ascii) :
  nucleotide c = true ->
  nucleotide (complement_char c) = true
  /\ complement_char (complement_char c) = c.
Proof.
  destruct c as [[] [] [] [] [] [] [] []]; try discriminate; split; reflexivity.
Qed.

Lemma valid_allele_complement (s : string) :
  valid_allele s = true ->
  valid_allele (complement s) = true /\ complement (complement s) = s.
Proof.
  induction s as [|c s IH]; intros H; [split; reflexivity|].
  simpl in H. apply andb_true_iff in H as [Hc Hs].
  destruct (IH Hs) as [IH1 IH2].
  destruct (nucleotide_complement_char c Hc) as [N1 N2].
  rewrite !complement_String. simpl. rewrite N1, IH1, N2, IH2. split; reflexivity.
Qed.

(** The marks are what breaks the round trip: without them, complementing
    twice gives the string back, also outside A, T, C, G. *)
Lemma unmarked_complement_char (c : ascii) :
  placeholder c = false ->
  placeholder (complement_char c) = false
  /\ complement_char (complement_char c) = c.
Proof.
  destruct c as [[] [] [] [] [] [] [] []]; try discriminate; split; reflexivity.
Qed.

Lemma free_of_marks_complement (s : string) :
  free_of_marks s = true ->
  free_of_marks (complement s) = true /\ complement (complement s) = s.
Proof.
  induction s as [|c s IH]; intros H; [split; reflexivity|].
  simpl in H. apply andb_true_iff in H as [Hc Hs].
  apply negb_true_iff in Hc.
  destruct (IH Hs) as [IH1 IH2].
  destruct (unmarked_complement_char c Hc) as [N1 N2].
  rewrite !complement_String. simpl. rewrite N1, IH1, N2, IH2. split; reflexivity.
Qed.

Lemma other_char_unchanged (c : ascii) :
  nucleotide c = false -> placeholder c = false -> complement_char c = c.
Proof. by_ascii_cases c. Qed.

Lemma in_read_target (x : list Variant.row) (t : Target.row) :
  In t (read_target x) ->
  exists v, In v x
    /\ Target.REF t = Variant.REF v /\ Target.ALT t = Variant.ALT v
    /\ Target.REF_FLIP t = complement (Variant.REF v)
    /\ Target.ALT_FLIP t = complement (Variant.ALT v).
Proof.
  unfold read_target. rewrite in_map_iff. intros [v [<- Hv]].
  exists v. simpl. repeat split; auto.
Qed.

(** C2: on allele strings over A, T, C, G the complementer is an
    involution; the complement has the length of its argument and holds,
    at each position, the partner of the character found there (A and T
    swapped, C and G swapped).  In particular, for a row that
    [read_target] returns, complementing [REF_FLIP] gives back [REF] and
    complementing [ALT_FLIP] gives back [ALT], the alleles being over
    A, T, C, G. *)
Theorem complement_involutive :
  (forall x : string, valid_allele x = true ->
     complement (complement x) = x
     /\ String.length (complement x) = String.length x
     /\ valid_allele (complement x) = true
     /\ forall n, String.get n (complement x)
                  = option_map complement_char (String.get n x))
  /\ (complement_char "A" = "T" /\ complement_char "T" = "A"
      /\ complement_char "C" = "G" /\ complement_char "G" = "C")%char
  /\ (forall (x : list Variant.row) (t : Target.row),
        In t (read_target x) ->
        (valid_allele (Target.REF t) = true ->
           complement (Target.REF_FLIP t) = Target.REF t)
        /\ (valid_allele (Target.ALT t) = true ->
              complement (Target.ALT_FLIP t) = Target.ALT t)).
Proof.
  split; [|split].
  - intros x Hx. destruct (valid_allele_complement x Hx) as [Hv Hi].
    repeat split; auto using complement_length, complement_get.
  - repeat split; reflexivity.
  - intros x t Ht.
    destruct (in_read_target x t Ht) as (v & _ & -> & -> & -> & ->).
    split; intros H; now apply valid_allele_complement.
Qed.

Lemma complement_involutive_witness :
  (valid_allele "GATTACA" = true
   /\ complement "GATTACA" = "CTAATGT"
   /\ complement (complement "GATTACA") = "GATTACA")
  /\ (valid_allele "A" = true
      /\ In (Target.mk "1" "rs1" 100 "A" "G" "T" "C") (read_target (target_AG "rs1"))
      /\ complement "T" = "A").
Proof.
  destruct complement_involutive as [Hx [_ Ht]]. split.
  - split; [reflexivity|]. split; [reflexivity|].
    apply (Hx "GATTACA"). reflexivity.
  - split; [reflexivity|]. split; [left; reflexivity|].
    apply (Ht (target_AG "rs1") (Target.mk "1" "rs1" 100 "A" "G" "T" "C")).
    + left; reflexivity.
    + reflexivity.
Defined.

(** C7, as the code has it: the complementer has no failure.  For every
    string it returns a string of the same length, character by
    character: A and T are swapped, C and G are swapped, the marks V, X,
    Y, Z come out as T, A, G, C, and every other character is passed
    through unchanged; [read_target] returns one row per input row. *)
Theorem complement_passes_other_characters (s : string) :
  complement s = string_map complement_char s
  /\ String.length (complement s) = String.length s
  /\ (forall c, nucleotide c = false -> placeholder c = false ->
        complement_char c = c)
  /\ (complement_char "V" = "T" /\ complement_char "X" = "A"
      /\ complement_char "Y" = "G" /\ complement_char "Z" = "C")%char
  /\ forall x : list Variant.row, length (read_target x) = length x.
Proof.
  split; [apply complement_string_map|].
  split; [apply complement_length|].
  split; [apply other_char_unchanged|].
  split; [repeat split; reflexivity|].
  intros x. unfold read_target. apply length_map.
Qed.

Lemma complement_passes_other_characters_witness :
  (nucleotide "N" = false /\ placeholder "N" = false)
  /\ complement_char "N" = "N"%char.
Proof.
  split; [split; reflexivity|].
  apply (proj1 (proj2 (proj2 (complement_passes_other_characters "N")))); reflexivity.
Defined.

(** C7, the claim as stated fails: the allele AN is not over A, T, C, G,
    yet it is complemented without failure, A becoming T and N staying. *)
Lemma foreign_character_is_passed_through :
  valid_allele "AN" = false
  /\ complement "AN" = "TN"
  /\ read_target [Variant.mk "1" "rs1" 100 "AN" "G"]
     = [Target.mk "1" "rs1" 100 "AN" "G" "TN" "C"].
Proof. repeat split; reflexivity. Qed.

(** ** The matcher *)

Section Matcher.

Variables (scorefile : list Score.row) (target : list Target.row).

Lemma in_match_variants EA OA match_type (m : Match.row) :
  In m (match_variants scorefile target EA OA match_type) <->
  exists s t, In s scorefile /\ In t target
    /\ join_keys EA OA s t = true /\ m = joined_row EA OA match_type s t.
Proof.
  unfold match_variants. rewrite in_flat_map. split.
  - intros [s [Hs Hm]]. apply in_map_iff in Hm as [t [<- Ht]].
    apply filter_In in Ht as [Ht Hk]. eauto 7.
  - intros [s [t [Hs [Ht [Hk ->]]]]]. exists s. split; [assumption|].
    apply in_map, filter_In. auto.
Qed.

Lemma join_keys_true EA OA s t :
  join_keys EA OA s t = true <->
  Score.chr_name s = Target.CHROM t /\ Score.chr_position s = Target.POS t
  /\ Score.effect_allele s = target_col EA t
  /\ Score.other_allele s = target_col OA t.
Proof.
  unfold join_keys. rewrite !andb_true_iff, !String.eqb_eq, Z.eqb_eq. tauto.
Qed.

(** The columns copied back after the join hold what the target row holds. *)
Lemma joined_col_target EA OA c s t :
  join_keys EA OA s t = true -> joined_col EA OA c s t = target_col c t.
Proof.
  intros H. apply join_keys_true in H as (_ & _ & He & Ho).
  unfold joined_col.
  destruct c, EA; simpl; try assumption; destruct OA; simpl; auto.
Qed.

End Matcher.

(** ** The ambiguity resolver *)

Lemma in_label (ms : list Match.row) (remove : bool) (r : Labelled.row) :
  In r (label_biallelic_ambiguous ms remove) <->
  In (Labelled.base r) ms
  /\ Labelled.ambiguous r = when_flip r
  /\ (remove = true -> Labelled.ambiguous r = false).
Proof.
  unfold label_biallelic_ambiguous. rewrite map_map.
  assert (E : forall r,
    In r (map (fun m => then_otherwise (lit_ambiguous m)) ms) <->
    In (Labelled.base r) ms /\ Labelled.ambiguous r = when_flip r).
  { intros [b a]. rewrite in_map_iff.
    unfold then_otherwise, lit_ambiguous, when_flip. simpl. split.
    - intros [m [Hm Hin]]. injection Hm as -> <-.
      split; [assumption|]. now destruct (_ || _).
    - intros [Hin ->]. exists b. split; [|assumption]. now destruct (_ || _). }
  destruct remove.
  - rewrite filter_In, E.
    destruct (Labelled.ambiguous r); simpl; intuition congruence.
  - rewrite E. intuition congruence.
Qed.

Lemma in_get_all_matches target scorefile remove (r : Labelled.row) :
  In r (get_all_matches target scorefile remove) <->
  (exists h s t, In h hypotheses /\ In s scorefile /\ In t target
     /\ join_keys (fst (fst h)) (snd (fst h)) s t = true
     /\ Labelled.base r = joined_row (fst (fst h)) (snd (fst h)) (snd h) s t)
  /\ Labelled.ambiguous r = when_flip r
  /\ (remove = true -> Labelled.ambiguous r = false).
Proof.
  unfold get_all_matches. rewrite in_label, !in_app_iff, !in_match_variants.
  apply and_iff_compat_r. unfold hypotheses. split.
  - intros [H|[H|[H|H]]]; destruct H as (s & t & Hs & Ht & Hk & Hm).
    + exists (col_REF, col_ALT, "refalt"), s, t. simpl. auto 10.
    + exists (col_ALT, col_REF, "altref"), s, t. simpl. auto 10.
    + exists (col_REF_FLIP, col_ALT_FLIP, "refalt_flip"), s, t. simpl. auto 10.
    + exists (col_ALT_FLIP, col_REF_FLIP, "altref_flip"), s, t. simpl. auto 10.
  - intros (h & s & t & Hh & Hs & Ht & Hk & Hm). simpl in Hh.
    destruct Hh as [<-|[<-|[<-|[<-|[]]]]]; simpl in *; eauto 10.
Qed.

(** On any frame, without removal, the resolver keeps every row and sets
    its flag to the value of the flip test. *)
Lemma label_keeps_all (ms : list Match.row) :
  label_biallelic_ambiguous ms false
  = map (fun m => {| Labelled.base := m;
                     Labelled.ambiguous := when_flip (lit_ambiguous m) |}) ms.
Proof.
  unfold label_biallelic_ambiguous. rewrite map_map. apply map_ext.
  intros m. unfold then_otherwise. simpl. now destruct (when_flip _).
Qed.

(** C1: every record that the matcher and resolver return comes from a
    scorefile row and a target row with the same chromosome and position,
    whatever the hypothesis that joined them, and its flag [ambiguous] is
    true if and only if its effect allele equals [ALT_FLIP] or [REF_FLIP]
    of that target row; otherwise the flag is false. *)
Theorem ambiguous_iff_effect_allele_is_flip
    (target : list Target.row) (scorefile : list Score.row) (remove : bool)
    (r : Labelled.row) :
  In r (get_all_matches target scorefile remove) ->
  exists s t, In s scorefile /\ In t target
    /\ Score.chr_name s = Target.CHROM t
    /\ Score.chr_position s = Target.POS t
    /\ Match.effect_allele (Labelled.base r) = Score.effect_allele s
    /\ Match.ALT_FLIP (Labelled.base r) = Target.ALT_FLIP t
    /\ Match.REF_FLIP (Labelled.base r) = Target.REF_FLIP t
    /\ (Labelled.ambiguous r = true <->
        Score.effect_allele s = Target.ALT_FLIP t
        \/ Score.effect_allele s = Target.REF_FLIP t)
    /\ (Labelled.ambiguous r = false <->
        ~ (Score.effect_allele s = Target.ALT_FLIP t
           \/ Score.effect_allele s = Target.REF_FLIP t)).
Proof.
  intros H.
  apply in_get_all_matches in H as [(h & s & t & _ & Hs & Ht & Hk & Hb) [Ha _]].
  exists s, t. pose proof (proj1 (join_keys_true _ _ _ _) Hk) as (Hc & Hp & _).
  assert (EA : Match.ALT_FLIP (Labelled.base r) = Target.ALT_FLIP t).
  { rewrite Hb. simpl. now rewrite joined_col_target. }
  assert (ER : Match.REF_FLIP (Labelled.base r) = Target.REF_FLIP t).
  { rewrite Hb. simpl. now rewrite joined_col_target. }
  assert (EE : Match.effect_allele (Labelled.base r) = Score.effect_allele s).
  { now rewrite Hb. }
  repeat (split; [assumption|]).
  rewrite Ha. unfold when_flip. rewrite EA, ER, EE.
  rewrite <- not_true_iff_false, orb_true_iff, !String.eqb_eq. tauto.
Qed.

Lemma ambiguous_iff_effect_allele_is_flip_witness :
  In match_AT (get_all_matches (read_target target_AT) score_AT false)
  /\ exists s t, In s score_AT /\ In t (read_target target_AT)
       /\ Score.chr_name s = Target.CHROM t
       /\ Score.chr_position s = Target.POS t
       /\ Match.effect_allele (Labelled.base match_AT) = Score.effect_allele s
       /\ Match.ALT_FLIP (Labelled.base match_AT) = Target.ALT_FLIP t
       /\ Match.REF_FLIP (Labelled.base match_AT) = Target.REF_FLIP t
       /\ (Labelled.ambiguous match_AT = true <->
           Score.effect_allele s = Target.ALT_FLIP t
           \/ Score.effect_allele s = Target.REF_FLIP t)
       /\ (Labelled.ambiguous match_AT = false <->
           ~ (Score.effect_allele s = Target.ALT_FLIP t
              \/ Score.effect_allele s = Target.REF_FLIP t)).
Proof.
  split.
  - left; reflexivity.
  - apply (ambiguous_iff_effect_allele_is_flip
             (read_target target_AT) score_AT false match_AT).
    left; reflexivity.
Defined.

(** C3: for the target row (1, 100, A, G) and the scorefile row
    (1, 100, A, G, 0.5, additive, X) the four joins and the labelling
    return exactly one record, with [match_type] refalt, [ambiguous]
    false and [effect_weight] 0.5, whether or not ambiguous records are
    removed and whatever the identifier of the target row. *)
Theorem scenario_refalt (id : string) (remove : bool) :
  get_all_matches (read_target (target_AG id)) score_AG remove
  = [ {| Labelled.base :=
           {| Match.chr_name := "1"; Match.chr_position := 100;
              Match.effect_allele := "A"; Match.other_allele := "G";
              Match.effect_weight := 0.5%float;
              Match.effect_type := "additive"; Match.accession := "X";
              Match.ID := id; Match.REF := "A"; Match.ALT := "G";
              Match.REF_FLIP := "T"; Match.ALT_FLIP := "C";
              Match.match_type := "refalt" |};
         Labelled.ambiguous := false |} ].
Proof. destruct remove; reflexivity. Qed.

(** C4: with removal, the resolver returns exactly the records that it
    labels non-ambiguous without removal, unchanged and in the same
    order; so the result with removal is included in the result without,
    and holds no record whose flag is true. *)
Theorem remove_keeps_unambiguous (matches : list Match.row) :
  label_biallelic_ambiguous matches true
  = List.filter (fun r => negb (Labelled.ambiguous r))
      (label_biallelic_ambiguous matches false)
  /\ incl (label_biallelic_ambiguous matches true)
          (label_biallelic_ambiguous matches false)
  /\ Forall (fun r => Labelled.ambiguous r = false)
            (label_biallelic_ambiguous matches true)
  /\ (forall r, In r (label_biallelic_ambiguous matches true) <->
                In r (label_biallelic_ambiguous matches false)
                /\ Labelled.ambiguous r = false).
Proof.
  assert (E : label_biallelic_ambiguous matches true
     = List.filter (fun r => negb (Labelled.ambiguous r))
         (label_biallelic_ambiguous matches false)).
  { unfold label_biallelic_ambiguous. apply filter_ext.
    intros r. now destruct (Labelled.ambiguous r). }
  split; [exact E|]. rewrite E. split; [|split].
  - intros r Hr. now apply filter_In in Hr.
  - apply List.Forall_forall. intros r Hr. apply filter_In in Hr as [_ Hr].
    now apply negb_true_iff.
  - intros r. rewrite filter_In, negb_true_iff. tauto.
Qed.

(** ** The duplicate splitter *)

Lemma select_mask_map {A : Type} (p : A -> bool) (df : list A) :
  select_mask df (map p df) = List.filter p df.
Proof.
  unfold select_mask. induction df as [|a df IH]; [reflexivity|].
  simpl. destruct (p a); simpl; now rewrite IH.
Qed.

Lemma is_duplicated_col_ID (df : list Labelled.row) :
  is_duplicated (col_ID df) = map (duplicated_in df) df.
Proof. unfold is_duplicated, col_ID. now rewrite map_map. Qed.

(** Both groups are the rows of the frame, in order, that pass a test on
    their own identifier. *)
Lemma unduplicate_variants_filter (df : list Labelled.row) :
  first (unduplicate_variants df)
  = List.filter (fun r => negb (duplicated_in df r)) df
  /\ dup (unduplicate_variants df) = List.filter (duplicated_in df) df.
Proof.
  unfold unduplicate_variants. simpl.
  rewrite is_duplicated_col_ID, map_map, !select_mask_map. split; reflexivity.
Qed.

Lemma filter_negb_app_perm {A : Type} (p : A -> bool) (l : list A) :
  Permutation (List.filter (fun a => negb (p a)) l ++ List.filter p l) l.
Proof.
  induction l as [|a l IH]; [constructor|].
  simpl. destruct (p a); simpl.
  - symmetry. apply Permutation_cons_app. now symmetry.
  - now constructor.
Qed.

(** C5: the splitter partitions its input without changing a row: the
    two groups together are a rearrangement of the input, a row of the
    input is in one group or the other and never in both, the identifier
    of a row of [dup] occurs at least twice in the input and that of a
    row of [first] exactly once. *)
Theorem unduplicate_variants_partition (df : list Labelled.row) :
  Permutation (first (unduplicate_variants df) ++ dup (unduplicate_variants df)) df
  /\ (forall r, In r df <->
        In r (first (unduplicate_variants df))
        \/ In r (dup (unduplicate_variants df)))
  /\ (forall r, In r (first (unduplicate_variants df)) ->
        ~ In r (dup (unduplicate_variants df)))
  /\ (forall r, In r (dup (unduplicate_variants df)) ->
        2 <= count_occ string_dec (col_ID df) (Match.ID (Labelled.base r)))
  /\ (forall r, In r (first (unduplicate_variants df)) ->
        count_occ string_dec (col_ID df) (Match.ID (Labelled.base r)) = 1).
Proof.
  destruct (unduplicate_variants_filter df) as [-> ->].
  split; [apply filter_negb_app_perm|].
  split; [|split; [|split]]; intros r.
  - rewrite !filter_In. destruct (duplicated_in df r); simpl; intuition congruence.
  - rewrite !filter_In. intros [_ H1] [_ H2]. rewrite H2 in H1. discriminate.
  - rewrite filter_In. intros [_ H]. unfold duplicated_in in H.
    apply Nat.ltb_lt in H. lia.
  - rewrite filter_In. intros [Hin H]. unfold duplicated_in in H.
    apply negb_true_iff, Nat.ltb_ge in H.
    assert (0 < count_occ string_dec (col_ID df) (Match.ID (Labelled.base r))).
    { apply count_occ_In. unfold col_ID.
      now apply in_map with (f := fun r => Match.ID (Labelled.base r)). }
    lia.
Qed.

Lemma unduplicate_variants_partition_witness :
  (exists r, In r (dup (unduplicate_variants matches_two))
             /\ Match.ID (Labelled.base r) = "rs1"
             /\ 2 <= count_occ string_dec (col_ID matches_two) "rs1")
  /\ (exists r, In r (first (unduplicate_variants matches_two))
                /\ Match.ID (Labelled.base r) = "rs3"
                /\ count_occ string_dec (col_ID matches_two) "rs3" = 1).
Proof.
  destruct (unduplicate_variants_partition matches_two) as (_ & _ & _ & Hd & Hf).
  split.
  - eexists. split; [left; reflexivity|]. split; [reflexivity|].
    apply (Hd (hd match_AT (dup (unduplicate_variants matches_two)))).
    left; reflexivity.
  - eexists. split; [left; reflexivity|]. split; [reflexivity|].
    apply (Hf (hd match_AT (first (unduplicate_variants matches_two)))).
    left; reflexivity.
Defined.

(** ** The writer *)

Lemma ltb_length_nonempty {A : Type} (l : list A) :
  Nat.ltb 0 (length l) = match l with [] => false | _ :: _ => true end.
Proof. now destruct l. Qed.

Lemma format_scorefile_nonempty (df : list Labelled.row) (split : bool) :
  df <> [] -> format_scorefile df split <> [].
Proof.
  intros H. unfold format_scorefile. destruct split; [|discriminate].
  destruct df as [|r df]; [congruence|]. discriminate.
Qed.

Lemma write_items_nonempty et d (df_dict : list (string * Table float)) :
  df_dict <> [] -> write_items et d df_dict <> [].
Proof. destruct df_dict; [congruence|discriminate]. Qed.

Lemma write_scorefile_nonempty et (sf : Unduplicated) split :
  first sf <> [] \/ dup sf <> [] -> write_scorefile et sf split <> [].
Proof.
  unfold write_scorefile. rewrite !ltb_length_nonempty. intros [H|H] E;
    apply app_eq_nil in E as [E1 E2].
  - destruct (first sf); [congruence|].
    revert E1. apply write_items_nonempty, format_scorefile_nonempty. discriminate.
  - destruct (dup sf); [congruence|].
    revert E2. apply write_items_nonempty, format_scorefile_nonempty. discriminate.
Qed.

(** Every path that [write_scorefile] writes carries the label [first]. *)
Lemma write_scorefile_paths et (sf : Unduplicated) split (w : write) :
  In w (write_scorefile et sf split) -> exists k, fst w = fout k et "first".
Proof.
  unfold write_scorefile, write_items. rewrite in_app_iff.
  intros [H|H];
    [destruct (Nat.ltb 0 (length (first sf)))
    |destruct (Nat.ltb 0 (length (dup sf)))]; try contradiction;
    apply in_map_iff in H as [kv [<- _]]; now exists (fst kv).
Qed.

(** C10: the writer skips a group that has no row.  With [first] empty
    its writes are those of the [dup] group alone, with [dup] empty those
    of the [first] group alone, with both empty there is none; a group
    that has a row is written.  No case of [write_scorefile] raises. *)
Theorem empty_group_is_skipped (effect_type : option string) (split : bool)
    (f d : list Labelled.row) :
  write_scorefile effect_type (mkUnduplicated [] []) split = []
  /\ write_scorefile effect_type (mkUnduplicated [] d) split
     = (if Nat.ltb 0 (length d)
        then write_items effect_type "first" (format_scorefile d split) else [])
  /\ write_scorefile effect_type (mkUnduplicated f []) split
     = (if Nat.ltb 0 (length f)
        then write_items effect_type "first" (format_scorefile f split) else [])
  /\ (f <> [] -> write_scorefile effect_type (mkUnduplicated f []) split <> [])
  /\ (d <> [] -> write_scorefile effect_type (mkUnduplicated [] d) split <> []).
Proof.
  split; [reflexivity|]. split; [reflexivity|].
  split; [unfold write_scorefile; simpl; now rewrite app_nil_r|].
  split; intros H; apply write_scorefile_nonempty; simpl; auto.
Qed.

Lemma empty_group_is_skipped_witness :
  (first (unduplicate_variants matches_two) <> []
   /\ write_scorefile (Some "additive")
        (mkUnduplicated (first (unduplicate_variants matches_two)) []) false <> [])
  /\ write_scorefile (Some "additive") (mkUnduplicated [] []) false = [].
Proof.
  assert (H : first (unduplicate_variants matches_two) <> []) by discriminate.
  split; [split; [exact H|]|].
  - apply (proj1 (proj2 (proj2 (proj2
             (empty_group_is_skipped (Some "additive") false
                (first (unduplicate_variants matches_two)) []))))).
    exact H.
  - apply (proj1 (empty_group_is_skipped (Some "additive") false [] [])).
Defined.

Lemma run_writes_app fs (ws1 ws2 : list write) :
  run_writes fs (ws1 ++ ws2) = run_writes (run_writes fs ws1) ws2.
Proof. unfold run_writes. apply fold_left_app. Qed.

(** C9, what the code does: without [split], when both groups have rows,
    the table of [first] and the table of [dup] are written to one and
    the same path, labelled [first], so that the file keeps the [dup]
    table only; with or without [split] no path carries another label. *)
Theorem dup_overwrites_first (effect_type : option string) (sf : Unduplicated) :
  first sf <> [] -> dup sf <> [] ->
  write_scorefile effect_type sf false
  = [ (fout "false" effect_type "first", fill_null 0%float (pivot (first sf)));
      (fout "false" effect_type "first", fill_null 0%float (pivot (dup sf))) ]
  /\ (forall fs : gmap string (Table float),
        run_writes fs (write_scorefile effect_type sf false)
        = <[fout "false" effect_type "first" := fill_null 0%float (pivot (dup sf))]> fs)
  /\ (forall split w, In w (write_scorefile effect_type sf split) ->
        exists k, fst w = fout k effect_type "first").
Proof.
  intros Hf Hd. split; [|split].
  - unfold write_scorefile. rewrite !ltb_length_nonempty.
    destruct (first sf); [congruence|]. destruct (dup sf); [congruence|].
    reflexivity.
  - intros fs. unfold write_scorefile. rewrite !ltb_length_nonempty.
    destruct (first sf); [congruence|]. destruct (dup sf); [congruence|].
    unfold run_writes, write_csv. simpl. apply insert_insert_eq.
  - intros split w. apply write_scorefile_paths.
Qed.

Lemma dup_overwrites_first_witness :
  (first (unduplicate_variants matches_two) <> []
   /\ dup (unduplicate_variants matches_two) <> [])
  /\ map fst (write_scorefile (Some "additive") (unduplicate_variants matches_two) false)
     = ["false_additive_first.scorefile"; "false_additive_first.scorefile"].
Proof.
  assert (Hf : first (unduplicate_variants matches_two) <> []) by discriminate.
  assert (Hd : dup (unduplicate_variants matches_two) <> []) by discriminate.
  split; [split; assumption|].
  rewrite (proj1 (dup_overwrites_first (Some "additive")
                    (unduplicate_variants matches_two) Hf Hd)).
  reflexivity.
Defined.

(** ** main *)

Lemma main_unfold args target_rows scorefile_rows :
  main args target_rows scorefile_rows =
  match get_all_matches (read_target target_rows) scorefile_rows true with
  | [] => ([], Raised (AssertionError empty_err))
  | _ :: _ =>
      (flat_map
         (fun kv => write_scorefile (ea_dict_get (fst kv)) (snd kv) (Args.split args))
         (map (fun kv => (fst kv, unduplicate_variants (snd kv)))
            (split_effect_type
               (get_all_matches (read_target target_rows) scorefile_rows true))),
       Returned)
  end.
Proof.
  unfold main. rewrite ltb_length_nonempty.
  now destruct (get_all_matches _ _ _).
Qed.

Lemma unduplicate_variants_nonempty (df : list Labelled.row) :
  df <> [] ->
  first (unduplicate_variants df) <> [] \/ dup (unduplicate_variants df) <> [].
Proof.
  intros H. unfold unduplicate_variants. simpl.
  destruct df as [|r df]; [congruence|].
  unfold is_duplicated, select_mask. simpl.
  destruct (Nat.ltb 1 _); simpl; [right|left]; discriminate.
Qed.

(** When a match remains, [main] writes at least one file. *)
Lemma main_writes_when_matches args target_rows scorefile_rows :
  get_all_matches (read_target target_rows) scorefile_rows true <> [] ->
  fst (main args target_rows scorefile_rows) <> [].
Proof.
  rewrite main_unfold.
  destruct (get_all_matches _ _ _) as [|r df]; [congruence|]. intros _.
  cbn [fst]. unfold split_effect_type, col_effect_type.
  cbn [map unique unique_by flat_map fst snd List.filter].
  rewrite String.eqb_refl. intros E. apply app_eq_nil in E as [E _].
  revert E. apply write_scorefile_nonempty, unduplicate_variants_nonempty.
  discriminate.
Qed.

(** C6: when no record remains after matching and removal of ambiguous
    records, [main] ends with the assertion error, the exit status is not
    zero and no file is written; [main] writes a file, or returns, only
    when a record remains, and then it does both. *)
Theorem no_matches_is_fatal (args : Args.t) (target_rows : list Variant.row)
    (scorefile_rows : list Score.row) :
  let matches := get_all_matches (read_target target_rows) scorefile_rows true in
  let run := main args target_rows scorefile_rows in
  (matches = [] ->
     run = ([], Raised (AssertionError empty_err))
     /\ exit_status (snd run) <> 0%Z
     /\ forall fs, run_writes fs (fst run) = fs)
  /\ (fst run <> [] -> matches <> [])
  /\ (snd run = Returned -> matches <> [])
  /\ (matches <> [] -> snd run = Returned /\ fst run <> []).
Proof.
  intros matches run.
  assert (E : run = main args target_rows scorefile_rows) by reflexivity.
  rewrite main_unfold in E. fold matches in E.
  split; [|split; [|split]].
  - intros H. rewrite H in E. rewrite E. simpl.
    split; [reflexivity|split; [discriminate|intros fs; reflexivity]].
  - intros Hw H. rewrite H in E. rewrite E in Hw. now apply Hw.
  - intros Hr H. rewrite H in E. rewrite E in Hr. discriminate.
  - intros H. split.
    + rewrite E. destruct matches; [congruence|reflexivity].
    + now apply main_writes_when_matches.
Qed.

Lemma no_matches_is_fatal_witness :
  get_all_matches (read_target target_AT) score_AT true = []
  /\ main args_strict target_AT score_AT = ([], Raised (AssertionError empty_err))
  /\ exit_status (snd (main args_strict target_AT score_AT)) <> 0%Z
  /\ forall fs, run_writes fs (fst (main args_strict target_AT score_AT)) = fs.
Proof.
  split; [reflexivity|].
  apply (proj1 (no_matches_is_fatal args_strict target_AT score_AT)).
  reflexivity.
Defined.

(** C8, what the code does: [main] never reads [min_overlap].  Its writes
    and its outcome are the same for every value of the threshold; with
    the threshold at 1 and a scorefile of two variants of which one
    matches, it returns normally and writes the scorefile. *)
Theorem min_overlap_is_never_read :
  (forall (dataset scorefile target : string) (split : bool)
          (plink_format : option string) (m m' : float)
          (target_rows : list Variant.row) (scorefile_rows : list Score.row),
     main (Args.mk dataset scorefile target split plink_format m)
          target_rows scorefile_rows
     = main (Args.mk dataset scorefile target split plink_format m')
            target_rows scorefile_rows)
  /\ Args.min_overlap args_strict = 1%float
  /\ map Score.chr_position score_half = [100; 200]%Z
  /\ length (get_all_matches (read_target (target_AG "rs1")) score_half true) = 1
  /\ main args_strict (target_AG "rs1") score_half
     = ([("false_additive_first.scorefile",
          {| header := ["ID"; "effect_allele"; "X"];
             body := [("rs1", "A", [0.5%float])] |})],
        Returned).
Proof. repeat split; reflexivity. Qed.

(** The run on [target_two] and [score_two] leaves one file, and it holds
    the table of the duplicated identifier only. *)
Example main_two_groups_one_file :
  run_writes ∅ (fst (main args_strict target_two score_two))
  = {[ "false_additive_first.scorefile" :=
         {| header := ["ID"; "effect_allele"; "X"; "Y"];
            body := [("rs1", "A", [0.5%float; 0%float]);
                     ("rs1", "G", [0%float; 0.25%float])] |} ]}.
Proof. vm_compute. reflexivity. Qed.

(** * Further properties *)

(** ** Distinct values of a column *)

Section UniqueBy.

Context {A : Type} (eqb : A -> A -> bool).
Hypothesis eqb_spec : forall x y, eqb x y = true <-> x = y.

Lemma in_unique_by (l : list A) (x : A) : In x (unique_by eqb l) <-> In x l.
Proof.
  induction l as [|a l IH]; [reflexivity|].
  simpl. rewrite filter_In, IH, negb_true_iff. split.
  - intros [H|[H _]]; auto.
  - intros [H|H]; [now left|].
    destruct (eqb x a) eqn:E; [left; symmetry; now apply eqb_spec|auto].
Qed.

Lemma NoDup_unique_by (l : list A) : List.NoDup (unique_by eqb l).
Proof.
  induction l as [|a l IH]; simpl; constructor.
  - rewrite filter_In, negb_true_iff. intros [_ H].
    assert (eqb a a = true) by now apply eqb_spec. congruence.
  - now apply List.NoDup_filter.
Qed.

Lemma unique_by_NoDup (l : list A) : List.NoDup l -> unique_by eqb l = l.
Proof.
  induction l as [|a l IH]; [reflexivity|].
  intros H. apply List.NoDup_cons_iff in H as [Ha Hl].
  simpl. rewrite (IH Hl). f_equal.
  apply forallb_filter_id, forallb_forall. intros x Hx.
  apply negb_true_iff. destruct (eqb x a) eqn:E; [|reflexivity].
  apply eqb_spec in E. congruence.
Qed.

End UniqueBy.

Lemma in_unique (l : list string) (x : string) : In x (unique l) <-> In x l.
Proof. apply in_unique_by, String.eqb_eq. Qed.

Lemma NoDup_unique (l : list string) : List.NoDup (unique l).
Proof. apply NoDup_unique_by, String.eqb_eq. Qed.

(** ** Grouping the rows of a frame by a key column *)

Section GroupBy.

Context {A : Type} (key : A -> string).

Lemma group_cons (a : A) (df : list A) (k : string) :
  group key (a :: df) k
  = if String.eqb (key a) k then a :: group key df k else group key df k.
Proof. reflexivity. Qed.

Lemma group_cons_other (a : A) (df : list A) (ks : list string) :
  ~ In (key a) ks ->
  flat_map (group key (a :: df)) ks = flat_map (group key df) ks.
Proof.
  induction ks as [|k ks IH]; intros H; [reflexivity|].
  cbn [flat_map]. rewrite IH by (intros Hk; apply H; now right).
  f_equal. rewrite group_cons.
  destruct (String.eqb (key a) k) eqn:E; [|reflexivity].
  apply String.eqb_eq in E. exfalso. apply H. now left.
Qed.

Lemma group_cons_perm (a : A) (df : list A) (ks : list string) :
  List.NoDup ks -> In (key a) ks ->
  Permutation (flat_map (group key (a :: df)) ks) (a :: flat_map (group key df) ks).
Proof.
  induction ks as [|k ks IH]; intros Hnd Hin; [contradiction|].
  apply List.NoDup_cons_iff in Hnd as [Hk Hnd]. cbn [flat_map].
  rewrite group_cons. destruct (String.eqb (key a) k) eqn:E.
  - apply String.eqb_eq in E. subst k.
    now rewrite (group_cons_other a df ks Hk).
  - destruct Hin as [Hin|Hin]; [subst k; rewrite String.eqb_refl in E; discriminate|].
    rewrite (IH Hnd Hin). symmetry. apply Permutation_middle.
Qed.

Lemma flat_map_group_nil (ks : list string) : flat_map (group key []) ks = [].
Proof. induction ks as [|k ks IH]; [reflexivity|exact IH]. Qed.

Lemma group_by_unique_perm (df : list A) :
  Permutation (flat_map (group key df) (unique (map key df))) df.
Proof.
  assert (G : forall ks, List.NoDup ks -> (forall r, In r df -> In (key r) ks) ->
                         Permutation (flat_map (group key df) ks) df).
  { induction df as [|a df IH]; intros ks Hnd Hks.
    - now rewrite flat_map_group_nil.
    - rewrite group_cons_perm; [|assumption|apply Hks; now left].
      constructor. apply IH; [assumption|]. intros r Hr. apply Hks. now right. }
  apply G; [apply NoDup_unique|].
  intros r Hr. apply in_unique. now apply in_map.
Qed.

End GroupBy.

Lemma in_column {A B : Type} (col : A -> B) (df : list A) (v : B) :
  In v (map col df) <-> exists r, In r df /\ col r = v.
Proof. rewrite in_map_iff. split; intros [r [H1 H2]]; eauto. Qed.

Lemma in_group {A : Type} (key : A -> string) (df : list A) (k : string) (r : A) :
  In r (group key df k) <-> In r df /\ key r = k.
Proof. unfold group. now rewrite filter_In, String.eqb_eq. Qed.

(** ** split_effect_type *)

Lemma split_effect_type_groups (df : list Labelled.row) :
  split_effect_type df
  = map (fun k => (k, group row_effect_type df k)) (unique (map row_effect_type df)).
Proof. reflexivity. Qed.

Lemma flat_map_snd_map {A B : Type} (g : A -> list B) (ks : list A) :
  flat_map snd (map (fun k => (k, g k)) ks) = flat_map g ks.
Proof. induction ks as [|k ks IH]; [reflexivity|]. simpl. now rewrite IH. Qed.

(** X1: [split_effect_type] partitions the frame by effect type: its keys
    are pairwise distinct, the group of a key holds exactly the rows of
    the frame with that effect type and is never empty, every row of the
    frame is in the group of its own effect type, and the groups together
    are a rearrangement of the frame. *)
Theorem split_effect_type_partition (df : list Labelled.row) :
  List.NoDup (map fst (split_effect_type df))
  /\ (forall k g, In (k, g) (split_effect_type df) ->
        g <> []
        /\ forall r, In r g <->
                     In r df /\ Match.effect_type (Labelled.base r) = k)
  /\ (forall r, In r df ->
        exists g, In (Match.effect_type (Labelled.base r), g) (split_effect_type df)
                  /\ In r g)
  /\ Permutation (flat_map snd (split_effect_type df)) df.
Proof.
  rewrite split_effect_type_groups. split; [|split; [|split]].
  - rewrite map_map. simpl. rewrite map_id. apply NoDup_unique.
  - intros k g H. apply in_map_iff in H as [k' [E Hk]].
    injection E as -> <-. split.
    + apply in_unique, in_map_iff in Hk as [r [Hr Hin]].
      intros E. assert (H : In r (group row_effect_type df k)) by now apply in_group.
      rewrite E in H. contradiction.
    + intros r. exact (in_group row_effect_type df k r).
  - intros r Hr. exists (group row_effect_type df (row_effect_type r)). split.
    + apply in_map_iff. exists (row_effect_type r). split; [reflexivity|].
      apply in_unique. now apply in_map.
    + now apply in_group.
  - rewrite flat_map_snd_map. apply group_by_unique_perm.
Qed.

Lemma split_effect_type_partition_witness :
  In (hd match_AT matches_two) matches_two
  /\ exists g, In ("additive", g) (split_effect_type matches_two)
               /\ In (hd match_AT matches_two) g.
Proof.
  split; [left; reflexivity|].
  apply (proj1 (proj2 (proj2 (split_effect_type_partition matches_two)))
           (hd match_AT matches_two)).
  left; reflexivity.
Defined.

(** ** format_scorefile: the pivot *)

Lemma index_eqb_eq (a b : string * string) : index_eqb a b = true <-> a = b.
Proof.
  destruct a as [a1 a2], b as [b1 b2]. unfold index_eqb. simpl.
  rewrite andb_true_iff, !String.eqb_eq. split; [intros [-> ->]|intros [= -> ->]]; auto.
Qed.

Lemma pivot_index (df : list Labelled.row) (lit : float) :
  table_index (fill_null lit (pivot df))
  = unique_by index_eqb (map row_index df).
Proof.
  unfold table_index, fill_null, pivot. simpl. rewrite !map_map. simpl.
  erewrite map_ext; [apply map_id|]. now intros [id ea].
Qed.

Lemma pivot_accessions (df : list Labelled.row) (lit : float) :
  table_accessions (fill_null lit (pivot df)) = unique (map row_accession df).
Proof. reflexivity. Qed.

Lemma pivot_cell_Some df ix acc w :
  pivot_cell df ix acc = Some w ->
  exists r, In r df /\ row_index r = ix /\ row_accession r = acc
            /\ Match.effect_weight (Labelled.base r) = w.
Proof.
  unfold pivot_cell. destruct (find _ df) as [r|] eqn:F; [|discriminate].
  intros [= <-]. apply find_some in F as [Hin H].
  apply andb_true_iff in H as [H1 H2].
  apply index_eqb_eq in H1. apply String.eqb_eq in H2. eauto.
Qed.

Lemma pivot_cell_None df ix acc :
  pivot_cell df ix acc = None ->
  forall r, In r df -> row_index r = ix -> row_accession r <> acc.
Proof.
  unfold pivot_cell. destruct (find _ df) as [r|] eqn:F; [discriminate|].
  intros _ r Hr Hix Hacc. pose proof (find_none _ _ F r Hr) as H. simpl in H.
  apply andb_false_iff in H as [H|H].
  - apply not_true_iff_false in H. apply H, index_eqb_eq. exact Hix.
  - apply not_true_iff_false in H. apply H, String.eqb_eq. exact Hacc.
Qed.

Lemma in_pivot_body df lit (row : string * string * list float) :
  In row (body (fill_null lit (pivot df))) ->
  In (fst row) (unique_by index_eqb (map row_index df))
  /\ snd row
     = map (fun acc => match pivot_cell df (fst row) acc with
                       | Some w => w
                       | None => lit
                       end)
           (unique (map row_accession df)).
Proof.
  unfold fill_null, pivot. simpl. rewrite map_map. simpl.
  intros H. apply in_map_iff in H as [[id ea] [<- Hix]]. simpl.
  split; [exact Hix|]. now rewrite map_map.
Qed.

(** X8: the table that [pivot] and [fill_null] build is rectangular.  Its
    header is ID, effect_allele and then the accessions of the frame, each
    once; its rows carry the pairs of identifier and effect allele of the
    frame, each pair once; and every row has one weight cell per
    accession column. *)
Theorem pivot_table_shape (df : list Labelled.row) :
  let t := fill_null 0%float (pivot df) in
  header t = "ID" :: "effect_allele" :: table_accessions t
  /\ List.NoDup (table_accessions t)
  /\ (forall acc, In acc (table_accessions t) <->
        exists r, In r df /\ Match.accession (Labelled.base r) = acc)
  /\ List.NoDup (table_index t)
  /\ (forall id ea, In (id, ea) (table_index t) <->
        exists r, In r df /\ Match.ID (Labelled.base r) = id
                  /\ Match.effect_allele (Labelled.base r) = ea)
  /\ (forall row, In row (body t) ->
        length (snd row) = length (table_accessions t)).
Proof.
  intros t. unfold t. rewrite pivot_index, pivot_accessions.
  split; [reflexivity|]. split; [apply NoDup_unique|]. split; [|split; [|split]].
  - intros acc. rewrite in_unique. apply in_column.
  - apply NoDup_unique_by, index_eqb_eq.
  - intros id ea. rewrite (in_unique_by index_eqb index_eqb_eq), in_map_iff.
    split.
    + intros [r [[= <- <-] Hr]]. eauto.
    + intros [r [Hr [<- <-]]]. eauto.
  - intros row Hrow. apply in_pivot_body in Hrow as [_ ->]. apply length_map.
Qed.

(** X9: in the table that [pivot] and [fill_null] build, the cell of a row
    under an accession column is the effect weight of a row of the frame
    with that identifier, effect allele and accession, and it is 0 when
    the frame has no such row. *)
Theorem pivot_table_cells (df : list Labelled.row)
    (row : string * string * list float) (j : nat) (acc : string) :
  In row (body (fill_null 0%float (pivot df))) ->
  nth_error (table_accessions (fill_null 0%float (pivot df))) j = Some acc ->
  exists w, nth_error (snd row) j = Some w
    /\ ((exists r, In r df
           /\ (Match.ID (Labelled.base r), Match.effect_allele (Labelled.base r))
              = fst row
           /\ Match.accession (Labelled.base r) = acc
           /\ Match.effect_weight (Labelled.base r) = w)
        \/ ((forall r, In r df ->
               (Match.ID (Labelled.base r), Match.effect_allele (Labelled.base r))
               = fst row ->
               Match.accession (Labelled.base r) <> acc)
            /\ w = 0%float)).
Proof.
  intros Hrow Hacc. rewrite pivot_accessions in Hacc.
  apply in_pivot_body in Hrow as [_ ->].
  rewrite nth_error_map, Hacc. simpl.
  destruct (pivot_cell df (fst row) acc) as [w|] eqn:E.
  - exists w. split; [reflexivity|]. left. now apply pivot_cell_Some.
  - exists 0%float. split; [reflexivity|]. right. split; [|reflexivity].
    now apply pivot_cell_None.
Qed.

Lemma pivot_table_cells_witness :
  (In ("rs1", "G", [0%float; 0.25%float])
      (body (fill_null 0%float (pivot (dup (unduplicate_variants matches_two)))))
   /\ nth_error (table_accessions
                   (fill_null 0%float (pivot (dup (unduplicate_variants matches_two)))))
                0 = Some "X")
  /\ exists w, nth_error [0%float; 0.25%float] 0 = Some w
       /\ ((exists r, In r (dup (unduplicate_variants matches_two))
              /\ (Match.ID (Labelled.base r), Match.effect_allele (Labelled.base r))
                 = ("rs1", "G")
              /\ Match.accession (Labelled.base r) = "X"
              /\ Match.effect_weight (Labelled.base r) = w)
           \/ ((forall r, In r (dup (unduplicate_variants matches_two)) ->
                  (Match.ID (Labelled.base r), Match.effect_allele (Labelled.base r))
                  = ("rs1", "G") ->
                  Match.accession (Labelled.base r) <> "X")
               /\ w = 0%float)).
Proof.
  assert (H1 : In ("rs1", "G", [0%float; 0.25%float])
      (body (fill_null 0%float (pivot (dup (unduplicate_variants matches_two))))))
    by (right; left; reflexivity).
  assert (H2 : nth_error (table_accessions
                   (fill_null 0%float (pivot (dup (unduplicate_variants matches_two)))))
                0 = Some "X") by reflexivity.
  split; [split; assumption|].
  exact (pivot_table_cells (dup (unduplicate_variants matches_two))
           ("rs1", "G", [0%float; 0.25%float]) 0 "X" H1 H2).
Defined.

(** ** format_scorefile: the keys *)

Lemma format_scorefile_split (df : list Labelled.row) :
  format_scorefile df true
  = map (fun k => (k, fill_null 0%float (pivot (group row_chr_name df k))))
        (unique (map row_chr_name df)).
Proof. reflexivity. Qed.

(** X7: with [split], [format_scorefile] returns one table per chromosome
    of the frame: the keys are the values of [chr_name] that occur, each
    once, and the table of a key is built from the rows of that
    chromosome only; so an empty frame gives no table at all.  Without
    [split] there is exactly one table, under the key false, even for an
    empty frame. *)
Theorem format_scorefile_keys (df : list Labelled.row) :
  List.NoDup (map fst (format_scorefile df true))
  /\ (forall k, In k (map fst (format_scorefile df true)) <->
        exists r, In r df /\ Match.chr_name (Labelled.base r) = k)
  /\ (forall k t, In (k, t) (format_scorefile df true) ->
        forall id ea, In (id, ea) (table_index t) <->
          exists r, In r df /\ Match.chr_name (Labelled.base r) = k
                    /\ Match.ID (Labelled.base r) = id
                    /\ Match.effect_allele (Labelled.base r) = ea)
  /\ format_scorefile [] true = []
  /\ map fst (format_scorefile df false) = ["false"]
  /\ format_scorefile [] false
     = [("false", {| header := ["ID"; "effect_allele"]; body := [] |})].
Proof.
  rewrite format_scorefile_split.
  split; [|split; [|split; [|repeat split]]].
  - rewrite map_map. simpl. rewrite map_id. apply NoDup_unique.
  - intros k. rewrite map_map. simpl. rewrite map_id, in_unique.
    apply in_column.
  - intros k t H. apply in_map_iff in H as [k' [[= -> <-] _]].
    intros id ea.
    rewrite pivot_index, (in_unique_by index_eqb index_eqb_eq), in_map_iff.
    split.
    + intros [r [[= <- <-] Hr]]. apply in_group in Hr as [Hr Hk]. eauto 6.
    + intros [r (Hr & Hk & <- & <-)]. exists r. split; [reflexivity|].
      now apply in_group.
Qed.

Lemma format_scorefile_keys_witness :
  In ("1", fill_null 0%float (pivot matches_two)) (format_scorefile matches_two true)
  /\ (In ("rs3", "G") (table_index (fill_null 0%float (pivot matches_two))) <->
      exists r, In r matches_two /\ Match.chr_name (Labelled.base r) = "1"
                /\ Match.ID (Labelled.base r) = "rs3"
                /\ Match.effect_allele (Labelled.base r) = "G").
Proof.
  assert (H : In ("1", fill_null 0%float (pivot matches_two))
                 (format_scorefile matches_two true)) by (left; reflexivity).
  split; [exact H|].
  exact (proj1 (proj2 (proj2 (format_scorefile_keys matches_two)))
           "1" (fill_null 0%float (pivot matches_two)) H "rs3" "G").
Defined.

(** ** unduplicate_variants and the tables of its groups *)

Lemma count_occ_map_filter_le {A : Type} (key : A -> string) (p : A -> bool)
    (l : list A) (x : string) :
  count_occ string_dec (map key (List.filter p l)) x
  <= count_occ string_dec (map key l) x.
Proof.
  induction l as [|a l IH]; [reflexivity|].
  simpl. destruct (p a); simpl; destruct (string_dec (key a) x); lia.
Qed.

(** A test on the key alone keeps every occurrence of a key it accepts. *)
Lemma count_occ_map_filter_key {A : Type} (key : A -> string) (q : string -> bool)
    (l : list A) (x : string) :
  q x = true ->
  count_occ string_dec (map key (List.filter (fun a => q (key a)) l)) x
  = count_occ string_dec (map key l) x.
Proof.
  intros Hq. induction l as [|a l IH]; [reflexivity|].
  simpl. destruct (string_dec (key a) x) as [Eq|Ne].
  - rewrite Eq, Hq. simpl. destruct (string_dec (key a) x); [lia|contradiction].
  - destruct (q (key a)); simpl; [|exact IH].
    destruct (string_dec (key a) x); [contradiction|exact IH].
Qed.

Lemma NoDup_map_filter {A : Type} (key : A -> string) (p : A -> bool) (l : list A) :
  List.NoDup (map key l) -> List.NoDup (map key (List.filter p l)).
Proof.
  rewrite !(List.NoDup_count_occ string_dec). intros H x.
  etransitivity; [apply count_occ_map_filter_le|apply H].
Qed.

Lemma first_IDs_NoDup (df : list Labelled.row) :
  List.NoDup (col_ID (first (unduplicate_variants df))).
Proof.
  rewrite (proj1 (unduplicate_variants_filter df)).
  apply (List.NoDup_count_occ string_dec). intros x.
  destruct (count_occ string_dec
              (col_ID (List.filter (fun r => negb (duplicated_in df r)) df)) x)
    as [|n] eqn:E; [lia|].
  assert (Hin : In x (col_ID (List.filter (fun r => negb (duplicated_in df r)) df))).
  { apply (count_occ_In string_dec). lia. }
  apply in_map_iff in Hin as [r [<- Hr]]. apply filter_In in Hr as [_ Hr].
  apply negb_true_iff, Nat.ltb_ge in Hr. rewrite <- E.
  etransitivity; [apply (count_occ_map_filter_le (fun r => Match.ID (Labelled.base r)))|].
  exact Hr.
Qed.

Lemma pivot_IDs_NoDup (g : list Labelled.row) (lit : float) :
  List.NoDup (col_ID g) -> table_IDs (fill_null lit (pivot g)) = col_ID g.
Proof.
  intros H. unfold table_IDs. rewrite pivot_index.
  rewrite (unique_by_NoDup index_eqb index_eqb_eq).
  - unfold col_ID. now rewrite map_map.
  - apply (NoDup_map_inv fst). unfold col_ID in H. now rewrite map_map.
Qed.

(** X10: every table that [format_scorefile] builds from the group
    [first] of [unduplicate_variants] lists each identifier once, with or
    without [split]; the identifiers are those of the group's rows, in
    the order of the rows. *)
Theorem first_tables_have_unique_IDs (df : list Labelled.row) (split : bool)
    (k : string) (t : Table float) :
  In (k, t) (format_scorefile (first (unduplicate_variants df)) split) ->
  List.NoDup (table_IDs t)
  /\ (forall id, In id (table_IDs t) ->
        count_occ string_dec (col_ID df) id = 1)
  /\ (split = false -> table_IDs t = col_ID (first (unduplicate_variants df))).
Proof.
  intros H.
  assert (G : exists g, t = fill_null 0%float (pivot g)
                /\ List.NoDup (col_ID g)
                /\ incl g (first (unduplicate_variants df))
                /\ (split = false -> g = first (unduplicate_variants df))).
  { destruct split.
    - rewrite format_scorefile_split in H.
      apply in_map_iff in H as [k' [[= -> <-] _]].
      eexists. split; [reflexivity|]. split; [|split; [|discriminate]].
      + apply NoDup_map_filter, first_IDs_NoDup.
      + intros r Hr. now apply in_group in Hr.
    - destruct H as [[= <- <-]|[]]. eexists. split; [reflexivity|].
      split; [apply first_IDs_NoDup|]. split; [apply incl_refl|reflexivity]. }
  destruct G as (g & -> & Hnd & Hincl & Hg).
  rewrite (pivot_IDs_NoDup g _ Hnd). split; [exact Hnd|]. split.
  - intros id Hid. apply in_map_iff in Hid as [r [<- Hr]].
    apply Hincl in Hr. rewrite (proj1 (unduplicate_variants_filter df)) in Hr.
    apply filter_In in Hr as [Hin Hr].
    apply negb_true_iff, Nat.ltb_ge in Hr.
    assert (0 < count_occ string_dec (col_ID df) (Match.ID (Labelled.base r))).
    { apply count_occ_In. unfold col_ID.
      now apply in_map with (f := fun r => Match.ID (Labelled.base r)). }
    lia.
  - intros Hs. now rewrite (Hg Hs).
Qed.

Lemma first_tables_have_unique_IDs_witness :
  In ("false", fill_null 0%float (pivot (first (unduplicate_variants matches_two))))
     (format_scorefile (first (unduplicate_variants matches_two)) false)
  /\ List.NoDup
       (table_IDs (fill_null 0%float (pivot (first (unduplicate_variants matches_two))))).
Proof.
  assert (H : In ("false",
                  fill_null 0%float (pivot (first (unduplicate_variants matches_two))))
                 (format_scorefile (first (unduplicate_variants matches_two)) false))
    by (left; reflexivity).
  split; [exact H|].
  exact (proj1 (first_tables_have_unique_IDs matches_two false "false" _ H)).
Defined.

Lemma filter_none {A : Type} (p : A -> bool) (l : list A) :
  (forall x, In x l -> p x = false) -> List.filter p l = [].
Proof.
  induction l as [|a l IH]; intros H; [reflexivity|].
  simpl. rewrite (H a) by now left. apply IH. intros x Hx. apply H. now right.
Qed.

Lemma filter_all {A : Type} (p : A -> bool) (l : list A) :
  (forall x, In x l -> p x = true) -> List.filter p l = l.
Proof. intros H. now apply forallb_filter_id, forallb_forall. Qed.

Lemma unduplicate_variants_eq (df : list Labelled.row) :
  unduplicate_variants df
  = {| first := List.filter (fun r => negb (duplicated_in df r)) df;
       dup := List.filter (duplicated_in df) df |}.
Proof.
  destruct (unduplicate_variants_filter df) as [E1 E2].
  destruct (unduplicate_variants df). simpl in E1, E2. now subst.
Qed.

(** X11: splitting a group again changes nothing.  The group [first]
    splits into itself and an empty [dup]; the group [dup] splits into an
    empty [first] and itself. *)
Theorem unduplicate_variants_again (df : list Labelled.row) :
  unduplicate_variants (first (unduplicate_variants df))
  = {| first := first (unduplicate_variants df); dup := [] |}
  /\ unduplicate_variants (dup (unduplicate_variants df))
     = {| first := []; dup := dup (unduplicate_variants df) |}.
Proof.
  split.
  - assert (H : forall r, In r (first (unduplicate_variants df)) ->
                duplicated_in (first (unduplicate_variants df)) r = false).
    { intros r _. apply Nat.ltb_ge.
      apply (proj1 (List.NoDup_count_occ string_dec _) (first_IDs_NoDup df)). }
    rewrite (unduplicate_variants_eq (first _)). f_equal.
    + apply filter_all. intros r Hr. now rewrite (H r Hr).
    + now apply filter_none.
  - assert (H : forall r, In r (dup (unduplicate_variants df)) ->
                duplicated_in (dup (unduplicate_variants df)) r = true).
    { intros r Hr. rewrite (proj2 (unduplicate_variants_filter df)) in Hr |- *.
      apply filter_In in Hr as [_ Hr]. unfold duplicated_in at 1. unfold col_ID.
      rewrite (count_occ_map_filter_key (fun r => Match.ID (Labelled.base r))
                 (fun id => Nat.ltb 1 (count_occ string_dec (col_ID df) id)));
        exact Hr. }
    rewrite (unduplicate_variants_eq (dup _)). f_equal.
    + apply filter_none. intros r Hr. now rewrite (H r Hr).
    + now apply filter_all.
Qed.

(** ** The matcher: what a record says and which records exist *)

Lemma joined_row_from_rows EA OA mt s t :
  join_keys EA OA s t = true -> from_rows (joined_row EA OA mt s t) s t.
Proof.
  intros H. unfold from_rows. simpl.
  rewrite !(joined_col_target EA OA _ s t H). simpl. repeat split.
Qed.

Lemma hypotheses_orientation (h : allele_col * allele_col * string) s t :
  In h hypotheses ->
  (Score.effect_allele s = target_col (fst (fst h)) t
   /\ Score.other_allele s = target_col (snd (fst h)) t)
  <-> orientation (snd h) s t.
Proof.
  unfold hypotheses, orientation. simpl.
  intros [<-|[<-|[<-|[<-|[]]]]]; simpl; split;
    try (intros [H1 H2]; auto 10);
    intros [(E & H1 & H2)|[(E & H1 & H2)|[(E & H1 & H2)|(E & H1 & H2)]]];
    try discriminate; auto.
Qed.

Lemma orientation_hypothesis mt s t :
  orientation mt s t ->
  exists h, In h hypotheses /\ snd h = mt
    /\ Score.effect_allele s = target_col (fst (fst h)) t
    /\ Score.other_allele s = target_col (snd (fst h)) t.
Proof.
  unfold hypotheses.
  intros [(-> & H1 & H2)|[(-> & H1 & H2)|[(-> & H1 & H2)|(-> & H1 & H2)]]].
  - exists (col_REF, col_ALT, "refalt"). simpl. auto.
  - exists (col_ALT, col_REF, "altref"). simpl. auto.
  - exists (col_REF_FLIP, col_ALT_FLIP, "refalt_flip"). simpl. auto 6.
  - exists (col_ALT_FLIP, col_REF_FLIP, "altref_flip"). simpl. auto 7.
Qed.

(** X2: every record of [get_all_matches] carries the seven columns of a
    scorefile row and the identifier and four allele columns of a target
    row at the same chromosome and position, and its match type tells how
    the alleles agree: refalt, effect allele REF and other allele ALT;
    altref, the reverse; refalt_flip and altref_flip, the same against
    REF_FLIP and ALT_FLIP. *)
Theorem match_type_tells_orientation
    (target : list Target.row) (scorefile : list Score.row) (remove : bool)
    (r : Labelled.row) :
  In r (get_all_matches target scorefile remove) ->
  exists s t, In s scorefile /\ In t target
    /\ Score.chr_name s = Target.CHROM t
    /\ Score.chr_position s = Target.POS t
    /\ from_rows (Labelled.base r) s t
    /\ orientation (Match.match_type (Labelled.base r)) s t.
Proof.
  intros H.
  apply in_get_all_matches in H as [(h & s & t & Hh & Hs & Ht & Hk & Hb) _].
  exists s, t. pose proof (proj1 (join_keys_true _ _ _ _) Hk) as (Hc & Hp & He & Ho).
  repeat (split; [assumption|]). rewrite Hb. split.
  - now apply joined_row_from_rows.
  - simpl. apply hypotheses_orientation; auto.
Qed.

Lemma match_type_tells_orientation_witness :
  In match_AT (get_all_matches (read_target target_AT) score_AT false)
  /\ exists s t, In s score_AT /\ In t (read_target target_AT)
       /\ Score.chr_name s = Target.CHROM t
       /\ Score.chr_position s = Target.POS t
       /\ from_rows (Labelled.base match_AT) s t
       /\ orientation (Match.match_type (Labelled.base match_AT)) s t.
Proof.
  assert (H : In match_AT (get_all_matches (read_target target_AT) score_AT false))
    by (left; reflexivity).
  split; [exact H|].
  exact (match_type_tells_orientation (read_target target_AT) score_AT false
           match_AT H).
Defined.

(** X3: no agreement is missed.  For a scorefile row and a target row at
    the same chromosome and position whose alleles agree in one of the
    four orientations, [get_all_matches] without removal returns a record
    of that match type with the columns of the two rows; with removal it
    returns that record too when its flag is false. *)
Theorem every_orientation_is_matched
    (target : list Target.row) (scorefile : list Score.row)
    (s : Score.row) (t : Target.row) (match_type : string) :
  In s scorefile -> In t target ->
  Score.chr_name s = Target.CHROM t ->
  Score.chr_position s = Target.POS t ->
  orientation match_type s t ->
  exists r, In r (get_all_matches target scorefile false)
    /\ from_rows (Labelled.base r) s t
    /\ Match.match_type (Labelled.base r) = match_type
    /\ (Labelled.ambiguous r = false ->
        In r (get_all_matches target scorefile true)).
Proof.
  intros Hs Ht Hc Hp Ho.
  destruct (orientation_hypothesis _ _ _ Ho) as (h & Hh & <- & He & Hoa).
  assert (Hk : join_keys (fst (fst h)) (snd (fst h)) s t = true)
    by (apply join_keys_true; auto).
  set (m := joined_row (fst (fst h)) (snd (fst h)) (snd h) s t).
  exists {| Labelled.base := m; Labelled.ambiguous := flip_test m |}.
  assert (G : forall remove, (remove = true -> flip_test m = false) ->
    In {| Labelled.base := m; Labelled.ambiguous := flip_test m |}
       (get_all_matches target scorefile remove)).
  { intros remove Hr. apply in_get_all_matches. simpl. split; [|split].
    - exists h, s, t. auto 6.
    - reflexivity.
    - exact Hr. }
  split; [apply G; discriminate|]. split; [now apply joined_row_from_rows|].
  split; [reflexivity|]. cbn [Labelled.ambiguous]. intros Hf.
  apply (G true). intros _. exact Hf.
Qed.

Lemma every_orientation_is_matched_witness :
  (In (Score.mk "1" 100 "G" "A" 0.25%float "additive" "Y") score_two
   /\ In (Target.mk "1" "rs1" 100 "A" "G" "T" "C") (read_target target_two)
   /\ orientation "altref" (Score.mk "1" 100 "G" "A" 0.25%float "additive" "Y")
        (Target.mk "1" "rs1" 100 "A" "G" "T" "C"))
  /\ exists r, In r (get_all_matches (read_target target_two) score_two false)
       /\ from_rows (Labelled.base r)
            (Score.mk "1" 100 "G" "A" 0.25%float "additive" "Y")
            (Target.mk "1" "rs1" 100 "A" "G" "T" "C")
       /\ Match.match_type (Labelled.base r) = "altref"
       /\ (Labelled.ambiguous r = false ->
           In r (get_all_matches (read_target target_two) score_two true)).
Proof.
  assert (Hs : In (Score.mk "1" 100 "G" "A" 0.25%float "additive" "Y") score_two)
    by (right; left; reflexivity).
  assert (Ht : In (Target.mk "1" "rs1" 100 "A" "G" "T" "C") (read_target target_two))
    by (left; reflexivity).
  assert (Ho : orientation "altref"
                 (Score.mk "1" 100 "G" "A" 0.25%float "additive" "Y")
                 (Target.mk "1" "rs1" 100 "A" "G" "T" "C")).
  { right; left. repeat split. }
  split; [repeat split; assumption|].
  exact (every_orientation_is_matched (read_target target_two) score_two _ _
           "altref" Hs Ht eq_refl eq_refl Ho).
Defined.

(** ** Which records are flagged *)

Lemma when_flip_flip_test (r : Labelled.row) :
  when_flip r = flip_test (Labelled.base r).
Proof. reflexivity. Qed.

(** X4: a record joined on the flipped alleles is always flagged: its
    effect allele is REF_FLIP or ALT_FLIP by the join itself.  So with
    removal, as [main] calls it, [get_all_matches] returns records of
    match type refalt or altref only. *)
Theorem flipped_matches_are_ambiguous
    (target : list Target.row) (scorefile : list Score.row) (remove : bool)
    (r : Labelled.row) :
  In r (get_all_matches target scorefile remove) ->
  (Match.match_type (Labelled.base r) = "refalt_flip"
   \/ Match.match_type (Labelled.base r) = "altref_flip" ->
   Labelled.ambiguous r = true)
  /\ (remove = true ->
      Match.match_type (Labelled.base r) = "refalt"
      \/ Match.match_type (Labelled.base r) = "altref").
Proof.
  intros H.
  apply in_get_all_matches in H as [(h & s & t & Hh & _ & _ & Hk & Hb) [Ha Hr]].
  rewrite Ha, when_flip_flip_test, Hb. unfold flip_test.
  rewrite when_flip_flip_test, Hb in Ha. unfold flip_test in Ha.
  unfold hypotheses in Hh. simpl in Hh.
  destruct Hh as [<-|[<-|[<-|[<-|[]]]]]; simpl in *.
  - split; [intros [E|E]; discriminate|auto].
  - split; [intros [E|E]; discriminate|auto].
  - unfold joined_col. simpl. rewrite String.eqb_refl, orb_true_r.
    split; [reflexivity|]. intros Hrem. specialize (Hr Hrem).
    unfold joined_col in Ha. simpl in Ha.
    rewrite String.eqb_refl, orb_true_r in Ha. congruence.
  - unfold joined_col. simpl. rewrite String.eqb_refl.
    split; [reflexivity|]. intros Hrem. specialize (Hr Hrem).
    unfold joined_col in Ha. simpl in Ha. rewrite String.eqb_refl in Ha.
    simpl in Ha. congruence.
Qed.

Lemma flipped_matches_are_ambiguous_witness :
  In (hd match_AT (tl (get_all_matches (read_target target_AT) score_AT false)))
     (get_all_matches (read_target target_AT) score_AT false)
  /\ Match.match_type
       (Labelled.base
          (hd match_AT (tl (get_all_matches (read_target target_AT) score_AT false))))
     = "altref_flip"
  /\ Labelled.ambiguous
       (hd match_AT (tl (get_all_matches (read_target target_AT) score_AT false)))
     = true.
Proof.
  assert (H : In (hd match_AT
                    (tl (get_all_matches (read_target target_AT) score_AT false)))
                 (get_all_matches (read_target target_AT) score_AT false))
    by (right; left; reflexivity).
  split; [exact H|]. split; [reflexivity|].
  apply (proj1 (flipped_matches_are_ambiguous (read_target target_AT) score_AT
                  false _ H)).
  right; reflexivity.
Defined.

(** X15: whether a record joined on the unflipped alleles is flagged
    depends on the target row alone: a refalt record is flagged exactly
    when REF equals ALT_FLIP or REF_FLIP, an altref record exactly when
    ALT equals ALT_FLIP or REF_FLIP. *)
Theorem unflipped_ambiguity_depends_on_target
    (target : list Target.row) (scorefile : list Score.row) (remove : bool)
    (r : Labelled.row) :
  In r (get_all_matches target scorefile remove) ->
  exists t, In t target
    /\ Match.ID (Labelled.base r) = Target.ID t
    /\ (Match.match_type (Labelled.base r) = "refalt" ->
        (Labelled.ambiguous r = true <->
         Target.REF t = Target.ALT_FLIP t \/ Target.REF t = Target.REF_FLIP t))
    /\ (Match.match_type (Labelled.base r) = "altref" ->
        (Labelled.ambiguous r = true <->
         Target.ALT t = Target.ALT_FLIP t \/ Target.ALT t = Target.REF_FLIP t)).
Proof.
  intros H.
  apply in_get_all_matches in H as [(h & s & t & Hh & _ & Ht & Hk & Hb) [Ha _]].
  exists t. split; [exact Ht|]. split; [now rewrite Hb|].
  pose proof (joined_row_from_rows _ _ (snd h) s t Hk)
    as (_ & _ & He & _ & _ & _ & _ & _ & _ & _ & HRF & HAF).
  rewrite <- Hb in He, HRF, HAF.
  rewrite Ha, when_flip_flip_test. unfold flip_test.
  rewrite He, HRF, HAF, orb_true_iff, !String.eqb_eq.
  apply join_keys_true in Hk as (_ & _ & Hea & _).
  rewrite Hb. unfold hypotheses in Hh. simpl in Hh.
  destruct Hh as [<-|[<-|[<-|[<-|[]]]]]; simpl in *; rewrite Hea;
    split; intros E; try discriminate; reflexivity.
Qed.

Lemma unflipped_ambiguity_depends_on_target_witness :
  In match_AT (get_all_matches (read_target target_AT) score_AT false)
  /\ exists t, In t (read_target target_AT)
       /\ Match.ID (Labelled.base match_AT) = Target.ID t
       /\ (Match.match_type (Labelled.base match_AT) = "refalt" ->
           (Labelled.ambiguous match_AT = true <->
            Target.REF t = Target.ALT_FLIP t \/ Target.REF t = Target.REF_FLIP t))
       /\ (Match.match_type (Labelled.base match_AT) = "altref" ->
           (Labelled.ambiguous match_AT = true <->
            Target.ALT t = Target.ALT_FLIP t \/ Target.ALT t = Target.REF_FLIP t)).
Proof.
  assert (H : In match_AT (get_all_matches (read_target target_AT) score_AT false))
    by (left; reflexivity).
  split; [exact H|].
  exact (unflipped_ambiguity_depends_on_target (read_target target_AT) score_AT
           false match_AT H).
Defined.

(** ** The resolver on any frame *)

(** X14: the resolver changes no column but [ambiguous].  Without
    removal it returns the rows of the frame in the same number and
    order; with removal it returns, in order, the rows whose effect
    allele is neither ALT_FLIP nor REF_FLIP. *)
Theorem label_keeps_the_columns (matches : list Match.row) :
  map Labelled.base (label_biallelic_ambiguous matches false) = matches
  /\ map Labelled.base (label_biallelic_ambiguous matches true)
     = List.filter (fun m => negb (flip_test m)) matches
  /\ length (label_biallelic_ambiguous matches false) = length matches
  /\ length (label_biallelic_ambiguous matches true) <= length matches.
Proof.
  assert (E2 : map Labelled.base (label_biallelic_ambiguous matches true)
               = List.filter (fun m => negb (flip_test m)) matches).
  { unfold label_biallelic_ambiguous. rewrite map_map.
    induction matches as [|m ms IH]; [reflexivity|].
    cbn [map List.filter]. unfold then_otherwise at 1. unfold lit_ambiguous at 1 2.
    cbn [Labelled.ambiguous Labelled.base]. rewrite when_flip_flip_test.
    cbn [Labelled.base]. destruct (flip_test m); cbn; [apply IH|].
    f_equal. apply IH. }
  assert (E1 : map Labelled.base (label_biallelic_ambiguous matches false) = matches).
  { rewrite label_keeps_all, map_map. simpl. apply map_id. }
  split; [exact E1|]. split; [exact E2|]. split.
  - rewrite <- E1 at 2. now rewrite length_map.
  - rewrite <- (length_map Labelled.base), E2. apply filter_length_le.
Qed.

(** ** Empty tables *)



(** ** The complement of any string *)

(** X6: whatever the string, its complement holds none of the letters V,
    X, Y, Z, and complementing it twice more gives it back: three
    complements equal one. *)
Theorem complement_has_no_marks (s : string) :
  free_of_marks (complement s) = true
  /\ complement (complement (complement s)) = complement s.
Proof.
  assert (H : free_of_marks (complement s) = true).
  { induction s as [|c s IH]; [reflexivity|].
    rewrite complement_String. simpl. rewrite IH, andb_true_r.
    destruct c as [[] [] [] [] [] [] [] []]; reflexivity. }
  split; [exact H|]. now apply free_of_marks_complement.
Qed.

(** ** File names *)

Lemma append_cancel_l (p x y : string) :
  String.append p x = String.append p y -> x = y.
Proof. induction p as [|c p IH]; simpl; [auto|]. intros [= H]. auto. Qed.

Lemma ea_dict_get_cases (k : string) :
  (k = "is_dominant" /\ ea_dict_get k = Some "dominant")
  \/ (k = "is_recessive" /\ ea_dict_get k = Some "recessive")
  \/ (k = "additive" /\ ea_dict_get k = Some "additive")
  \/ (k <> "is_dominant" /\ k <> "is_recessive" /\ k <> "additive"
      /\ ea_dict_get k = None).
Proof.
  unfold ea_dict_get.
  destruct (String.eqb_spec k "is_dominant") as [->|H1]; [auto|].
  destruct (String.eqb_spec k "is_recessive") as [->|H2]; [auto|].
  destruct (String.eqb_spec k "additive") as [->|H3]; [auto 6|].
  auto 10.
Qed.

(** X12: an effect type that [ea_dict] does not know (any value but
    is_dominant, is_recessive and additive) is looked up as [None], and
    every file written for it is named with the word None in the place of
    the effect type. *)
Theorem unknown_effect_type_is_named_None (k : string) :
  k <> "is_dominant" -> k <> "is_recessive" -> k <> "additive" ->
  ea_dict_get k = None
  /\ forall (sf : Unduplicated) (split : bool) (w : write),
       In w (write_scorefile (ea_dict_get k) sf split) ->
       exists chr, fst w = String.append chr "_None_first.scorefile".
Proof.
  intros H1 H2 H3.
  destruct (ea_dict_get_cases k) as [[E _]|[[E _]|[[E _]|(_ & _ & _ & E)]]];
    try contradiction.
  split; [exact E|]. rewrite E. intros sf split w Hw.
  apply write_scorefile_paths in Hw as [chr ->]. now exists chr.
Qed.

Lemma unknown_effect_type_is_named_None_witness :
  ("dominant" <> "is_dominant" /\ "dominant" <> "is_recessive"
   /\ "dominant" <> "additive")
  /\ ea_dict_get "dominant" = None.
Proof.
  assert (H1 : "dominant" <> "is_dominant") by discriminate.
  assert (H2 : "dominant" <> "is_recessive") by discriminate.
  assert (H3 : "dominant" <> "additive") by discriminate.
  split; [repeat split; assumption|].
  exact (proj1 (unknown_effect_type_is_named_None "dominant" H1 H2 H3)).
Defined.

(** X13: for one key of [format_scorefile] and one label, two effect
    types are given the same path only when [ea_dict] gives them the same
    name; the files of additive, dominant and recessive weights are
    therefore apart, while all unknown effect types share one. *)
Theorem same_path_same_effect_name (chr dup k1 k2 : string) :
  fout chr (ea_dict_get k1) dup = fout chr (ea_dict_get k2) dup ->
  ea_dict_get k1 = ea_dict_get k2.
Proof.
  unfold fout. intros H. apply append_cancel_l, append_cancel_l in H.
  destruct (ea_dict_get_cases k1) as [[_ E1]|[[_ E1]|[[_ E1]|(_ & _ & _ & E1)]]];
  destruct (ea_dict_get_cases k2) as [[_ E2]|[[_ E2]|[[_ E2]|(_ & _ & _ & E2)]]];
    rewrite E1, E2 in *; try reflexivity; simpl in H; discriminate.
Qed.

Lemma same_path_same_effect_name_witness :
  fout "false" (ea_dict_get "dominant") "first"
  = fout "false" (ea_dict_get "recessive") "first"
  /\ ea_dict_get "dominant" = ea_dict_get "recessive".
Proof.
  assert (H : fout "false" (ea_dict_get "dominant") "first"
              = fout "false" (ea_dict_get "recessive") "first") by reflexivity.
  split; [exact H|].
  exact (same_path_same_effect_name "false" "first" "dominant" "recessive" H).
Defined.

(** ** What main writes *)

Lemma in_pivot_index (g : list Labelled.row) (ix : string * string) :
  In ix (table_index (fill_null 0%float (pivot g))) <->
  exists r, In r g /\ row_index r = ix.
Proof.
  rewrite pivot_index, (in_unique_by index_eqb index_eqb_eq). apply in_column.
Qed.

Lemma format_scorefile_covers (g : list Labelled.row) (split : bool)
    (r : Labelled.row) :
  In r g ->
  exists t, In ((if split then row_chr_name r else "false"), t)
               (format_scorefile g split)
            /\ In (row_index r) (table_index t).
Proof.
  intros Hr. destruct split.
  - rewrite format_scorefile_split.
    exists (fill_null 0%float (pivot (group row_chr_name g (row_chr_name r)))).
    split.
    + apply in_map_iff. exists (row_chr_name r). split; [reflexivity|].
      apply in_unique. now apply in_map.
    + apply in_pivot_index. exists r. split; [|reflexivity]. now apply in_group.
  - exists (fill_null 0%float (pivot g)). split; [left; reflexivity|].
    apply in_pivot_index. eauto.
Qed.

Lemma format_scorefile_rows (g : list Labelled.row) (split : bool)
    (k : string) (t : Table float) (ix : string * string) :
  In (k, t) (format_scorefile g split) -> In ix (table_index t) ->
  exists r, In r g /\ row_index r = ix.
Proof.
  intros H Hix. destruct split.
  - rewrite format_scorefile_split in H.
    apply in_map_iff in H as [k' [[= -> <-] _]].
    apply in_pivot_index in Hix as [r [Hr E]]. apply in_group in Hr as [Hr _].
    eauto.
  - destruct H as [[= <- <-]|[]]. now apply in_pivot_index.
Qed.

Lemma in_write_scorefile et (sf : Unduplicated) split (w : write) :
  In w (write_scorefile et sf split) <->
  exists g k, (g = first sf \/ g = dup sf) /\ g <> []
    /\ In (k, snd w) (format_scorefile g split)
    /\ fst w = fout k et "first".
Proof.
  unfold write_scorefile, write_items. rewrite in_app_iff, !ltb_length_nonempty.
  split.
  - intros [H|H].
    + destruct (first sf) as [|a l] eqn:E; [contradiction|].
      apply in_map_iff in H as [[k t] [<- H]]. exists (a :: l), k.
      simpl. split; [now left|]. split; [discriminate|]. split; [exact H|reflexivity].
    + destruct (dup sf) as [|a l] eqn:E; [contradiction|].
      apply in_map_iff in H as [[k t] [<- H]]. exists (a :: l), k.
      simpl. split; [now right|]. split; [discriminate|]. split; [exact H|reflexivity].
  - intros (g & k & [-> | ->] & Hne & Hin & Hp); [left|right].
    + destruct (first sf); [congruence|]. apply in_map_iff.
      exists (k, snd w). simpl. split; [|exact Hin]. destruct w. simpl in *. now subst.
    + destruct (dup sf); [congruence|]. apply in_map_iff.
      exists (k, snd w). simpl. split; [|exact Hin]. destruct w. simpl in *. now subst.
Qed.

Lemma in_main_writes args target_rows scorefile_rows (w : write) :
  In w (fst (main args target_rows scorefile_rows)) <->
  exists et g, In (et, g)
                  (split_effect_type
                     (get_all_matches (read_target target_rows) scorefile_rows true))
    /\ In w (write_scorefile (ea_dict_get et) (unduplicate_variants g)
               (Args.split args)).
Proof.
  rewrite main_unfold.
  destruct (get_all_matches _ _ _) as [|r0 df] eqn:E.
  - simpl. split; [contradiction|]. now intros (et & g & [] & _).
  - cbn [fst]. rewrite in_flat_map. split.
    + intros [[et u] [H Hw]]. apply in_map_iff in H as [[et' g] [[= -> <-] H]].
      eauto.
    + intros (et & g & H & Hw). exists (et, unduplicate_variants g).
      split; [|exact Hw]. apply in_map_iff. now exists (et, g).
Qed.

Lemma in_unduplicate_variants (df : list Labelled.row) (r : Labelled.row) :
  In r df <->
  In r (first (unduplicate_variants df)) \/ In r (dup (unduplicate_variants df)).
Proof.
  destruct (unduplicate_variants_filter df) as [-> ->].
  rewrite !filter_In. destruct (duplicated_in df r); simpl; intuition congruence.
Qed.

(** X16: every match that remains is written.  For a record that
    [get_all_matches] returns with removal, [main] makes a call of
    [write_csv] whose table has a row with the identifier and effect
    allele of the record, at the path formed from the record's chromosome
    (or false without [split]), the name of its effect type and the
    label first. *)
Theorem main_writes_every_match (args : Args.t) (target_rows : list Variant.row)
    (scorefile_rows : list Score.row) (r : Labelled.row) :
  In r (get_all_matches (read_target target_rows) scorefile_rows true) ->
  exists w, In w (fst (main args target_rows scorefile_rows))
    /\ fst w = fout (if Args.split args
                     then Match.chr_name (Labelled.base r) else "false")
                    (ea_dict_get (Match.effect_type (Labelled.base r))) "first"
    /\ In (Match.ID (Labelled.base r), Match.effect_allele (Labelled.base r))
          (table_index (snd w)).
Proof.
  intros Hr.
  set (df := get_all_matches (read_target target_rows) scorefile_rows true) in *.
  set (g := group row_effect_type df (row_effect_type r)).
  assert (Hg : In r g) by now apply in_group.
  assert (Hs : In (row_effect_type r, g) (split_effect_type df)).
  { rewrite split_effect_type_groups. apply in_map_iff.
    exists (row_effect_type r). split; [reflexivity|].
    apply in_unique. now apply in_map. }
  apply in_unduplicate_variants in Hg.
  assert (G : exists u, (u = first (unduplicate_variants g)
                         \/ u = dup (unduplicate_variants g)) /\ In r u).
  { destruct Hg as [H|H]; eauto. }
  destruct G as (u & Hu & Hru).
  destruct (format_scorefile_covers u (Args.split args) r Hru) as (t & Ht & Hix).
  exists (fout (if Args.split args then row_chr_name r else "false")
               (ea_dict_get (row_effect_type r)) "first", t).
  split; [|split; [reflexivity|exact Hix]].
  apply in_main_writes. exists (row_effect_type r), g. split; [exact Hs|].
  apply in_write_scorefile.
  exists u, (if Args.split args then row_chr_name r else "false").
  split; [exact Hu|]. split; [|split; [exact Ht|reflexivity]].
  intros E. rewrite E in Hru. contradiction.
Qed.

Lemma main_written_row args target_rows scorefile_rows (w : write)
    (ix : string * string) :
  In w (fst (main args target_rows scorefile_rows)) ->
  In ix (table_index (snd w)) ->
  exists r et k,
    In r (get_all_matches (read_target target_rows) scorefile_rows true)
    /\ row_index r = ix /\ row_effect_type r = et
    /\ fst w = fout k (ea_dict_get et) "first".
Proof.
  intros Hw Hix. apply in_main_writes in Hw as (et & g & Hs & Hw).
  rewrite split_effect_type_groups in Hs.
  apply in_map_iff in Hs as [et' [[= -> <-] _]].
  apply in_write_scorefile in Hw as (u & k & Hu & _ & Ht & Hp).
  destruct (format_scorefile_rows u _ k _ _ Ht Hix) as (r & Hr & E).
  assert (Hg : In r (group row_effect_type
                       (get_all_matches (read_target target_rows) scorefile_rows true)
                       et)).
  { apply in_unduplicate_variants. destruct Hu as [-> | ->]; auto. }
  apply in_group in Hg as [Hin Het]. exists r, et, k. auto.
Qed.

(** X17: [main] writes nothing but matches.  Every row of every table it
    writes has the identifier and effect allele of a record that
    [get_all_matches] returns with removal, and the path of the table
    carries the name of that record's effect type and the label first. *)
Theorem main_writes_only_matches (args : Args.t) (target_rows : list Variant.row)
    (scorefile_rows : list Score.row) (w : write) (id ea : string) :
  In w (fst (main args target_rows scorefile_rows)) ->
  In (id, ea) (table_index (snd w)) ->
  exists r k,
    In r (get_all_matches (read_target target_rows) scorefile_rows true)
    /\ Match.ID (Labelled.base r) = id
    /\ Match.effect_allele (Labelled.base r) = ea
    /\ fst w = fout k (ea_dict_get (Match.effect_type (Labelled.base r))) "first".
Proof.
  intros Hw Hix.
  destruct (main_written_row _ _ _ w (id, ea) Hw Hix)
    as (r & et & k & Hr & [= E1 E2] & Het & Hp).
  exists r, k. unfold row_effect_type in Het. rewrite Het. auto.
Qed.

Lemma main_writes_every_match_witness :
  In (hd match_AT matches_two)
     (get_all_matches (read_target target_two) score_two true)
  /\ exists w, In w (fst (main args_strict target_two score_two))
       /\ fst w = "false_additive_first.scorefile"
       /\ In ("rs1", "A") (table_index (snd w)).
Proof.
  assert (H : In (hd match_AT matches_two)
                 (get_all_matches (read_target target_two) score_two true))
    by (left; reflexivity).
  split; [exact H|].
  exact (main_writes_every_match args_strict target_two score_two
           (hd match_AT matches_two) H).
Defined.

Lemma main_writes_only_matches_witness :
  (In (hd ("", fill_null 0%float (pivot [])) (fst (main args_strict target_two score_two)))
      (fst (main args_strict target_two score_two))
   /\ In ("rs3", "G")
         (table_index
            (snd (hd ("", fill_null 0%float (pivot []))
                     (fst (main args_strict target_two score_two))))))
  /\ exists r k,
       In r (get_all_matches (read_target target_two) score_two true)
       /\ Match.ID (Labelled.base r) = "rs3"
       /\ Match.effect_allele (Labelled.base r) = "G"
       /\ fst (hd ("", fill_null 0%float (pivot []))
                  (fst (main args_strict target_two score_two)))
          = fout k (ea_dict_get (Match.effect_type (Labelled.base r))) "first".
Proof.
  assert (H1 : In (hd ("", fill_null 0%float (pivot []))
                      (fst (main args_strict target_two score_two)))
                  (fst (main args_strict target_two score_two)))
    by (left; reflexivity).
  assert (H2 : In ("rs3", "G")
                  (table_index
                     (snd (hd ("", fill_null 0%float (pivot []))
                              (fst (main args_strict target_two score_two))))))
    by (left; reflexivity).
  split; [split; assumption|].
  exact (main_writes_only_matches args_strict target_two score_two _ "rs3" "G" H1 H2).
Defined.

Lemma surviving_match_is_unflipped
    (target : list Target.row) (scorefile : list Score.row) (r : Labelled.row) :
  In r (get_all_matches target scorefile true) ->
  exists t, In t target /\ Match.ID (Labelled.base r) = Target.ID t
    /\ (Match.effect_allele (Labelled.base r) = Target.REF t
        \/ Match.effect_allele (Labelled.base r) = Target.ALT t).
Proof.
  intros H.
  apply in_get_all_matches in H as [(h & s & t & Hh & _ & Ht & Hk & Hb) [Ha Hr]].
  specialize (Hr eq_refl). rewrite Hr, when_flip_flip_test, Hb in Ha.
  unfold flip_test in Ha. symmetry in Ha. apply orb_false_iff in Ha as [Ha1 Ha2].
  apply join_keys_true in Hk as (_ & _ & He & _).
  exists t. split; [exact Ht|]. rewrite Hb. split; [reflexivity|].
  unfold hypotheses in Hh. simpl in Hh.
  destruct Hh as [<-|[<-|[<-|[<-|[]]]]]; simpl in *; auto.
  - unfold joined_col in Ha2. simpl in Ha2. rewrite String.eqb_refl in Ha2.
    discriminate.
  - unfold joined_col in Ha1. simpl in Ha1. rewrite String.eqb_refl in Ha1.
    discriminate.
Qed.

(** X18: [main] never writes a complemented allele.  Every row of every
    table it writes has the identifier of a row of the target table and,
    as effect allele, the REF or the ALT of that row as the table has
    them. *)
Theorem main_writes_target_alleles (args : Args.t) (target_rows : list Variant.row)
    (scorefile_rows : list Score.row) (w : write) (id ea : string) :
  In w (fst (main args target_rows scorefile_rows)) ->
  In (id, ea) (table_index (snd w)) ->
  exists v, In v target_rows /\ Variant.ID v = id
    /\ (ea = Variant.REF v \/ ea = Variant.ALT v).
Proof.
  intros Hw Hix.
  destruct (main_written_row args target_rows scorefile_rows w (id, ea) Hw Hix)
    as (r & _ & _ & Hr & [= <- <-] & _).
  apply surviving_match_is_unflipped in Hr as (t & Ht & Hid & Hea).
  apply in_map_iff in Ht as [v [<- Hv]]. simpl in *. eauto.
Qed.

Lemma main_writes_target_alleles_witness :
  (In (hd ("", fill_null 0%float (pivot [])) (fst (main args_strict target_two score_two)))
      (fst (main args_strict target_two score_two))
   /\ In ("rs3", "G")
         (table_index
            (snd (hd ("", fill_null 0%float (pivot []))
                     (fst (main args_strict target_two score_two))))))
  /\ exists v, In v target_two /\ Variant.ID v = "rs3"
       /\ ("G" = Variant.REF v \/ "G" = Variant.ALT v).
Proof.
  assert (H1 : In (hd ("", fill_null 0%float (pivot []))
                      (fst (main args_strict target_two score_two)))
                  (fst (main args_strict target_two score_two)))
    by (left; reflexivity).
  assert (H2 : In ("rs3", "G")
                  (table_index
                     (snd (hd ("", fill_null 0%float (pivot []))
                              (fst (main args_strict target_two score_two))))))
    by (left; reflexivity).
  split; [split; assumption|].
  exact (main_writes_target_alleles args_strict target_two score_two _ "rs3" "G" H1 H2).
Defined.
